(** * iknow/quill: the re-export shim and the type declaration surface

    The repository's source is two artifacts:
    - [quill.ts]: imports the editor constructor from ['./core'] and
      re-exports it as the default export, registering nothing;
    - the type declarations for Quill 2.0: type aliases, interfaces and two
      body-less (ambient) classes describing the editor's API.

    The development is layered as follows.
    - [Js]: runtime values as the declared types classify them.
    - [Ts]: the type language of the declarations, with the structural
      "is a value of this type" check, method overloads and their resolution.
    - [Src]: source files as lists of top-level items.
    - [Decls]: the declarations of the source, one definition per declaration,
      under the source's names, and the two source files.
    - [Loader]: what importing a source file does at run time: the statements
      that survive type erasure, executed in a state-and-error monad over the
      registry of formatting modules.
    - [Shape]: the vocabulary of the properties, which follow it. *)

From Stdlib Require Import ZArith.
From stdpp Require Import gmap strings list.

Local Open Scope string_scope.
Local Set Warnings "-register-all".

(** ** Runtime values *)

Module Js.

(** A JavaScript value, as far as the declared types can tell values apart.
    Only the tag of a number matters to typing, so its payload is an
    integer; a function is opaque. An object is its list of own fields,
    the first binding of a key being the one that is read. *)
Inductive value : Type :=
| VUndefined
| VNull
| VBool (b : bool)
| VNum (n : Z)
| VStr (s : string)
| VArr (elts : list value)
| VObj (fields : list (string * value))
| VFun (id : nat).

(** [o[k]]: [None] when the object has no such field. *)
Fixpoint get (k : string) (fields : list (string * value)) : option value :=
  match fields with
  | [] => None
  | (k', v) :: rest => if String.eqb k k' then Some v else get k rest
  end.

Definition is_undefined (v : value) : bool :=
  match v with VUndefined => true | _ => false end.

(** The object has a field [k]. *)
Definition carries (k : string) (fields : list (string * value)) : bool :=
  match get k fields with Some _ => true | None => false end.

(** The [i]-th argument of a call; a missing argument reads as [undefined]. *)
Definition argument (i : nat) (args : list value) : value :=
  nth i args VUndefined.

End Js.

(** ** The type language of the declarations *)

Module Ts.
Import Js.

(** A parameter of a signature: [name: T] or [name?: T]. *)
Record param_of (T : Type) : Type := Param {
  pname : string;
  poptional : bool;
  ptype : T
}.
Arguments Param {T} _ _ _.
Arguments pname {T} _.
Arguments poptional {T} _.
Arguments ptype {T} _.

(** A member of an interface, class or object type literal. Overloads of a
    method are several [Method] members of one name, in source order. *)
Inductive member_of (T : Type) : Type :=
| Property (name : string) (optional : bool) (type : T)
| Method (name : string) (params : list (param_of T)) (ret : T)
| StaticMethod (name : string) (params : list (param_of T)) (ret : T)
| Constructor (params : list (param_of T))
| IndexSignature (type : T).
Arguments Property {T} _ _ _.
Arguments Method {T} _ _ _.
Arguments StaticMethod {T} _ _ _.
Arguments Constructor {T} _.
Arguments IndexSignature {T} _.

(** Types. [TName] is a type that is not expanded structurally: a type of
    an external library ([Delta], [HTMLElement], [Blot], ...) or a declared
    class referred to from inside its own members. *)
Inductive ty : Type :=
| TAny
| TVoid
| TNull
| TNumber
| TString
| TBoolean
| TStrLit (s : string)
| TBoolLit (b : bool)
| TName (name : string)
| TArray (elt : ty)
| TTuple (elts : list ty)
| TUnion (alts : list ty)
| TInter (parts : list ty)
| TObject (members : list (member_of ty))
| TFunction (params : list (param_of ty)) (ret : ty).

Definition param : Type := param_of ty.
Definition member : Type := member_of ty.

(** [name: T] and [name?: T], for properties and for parameters. *)
Definition prop (name : string) (t : ty) : member := Property name false t.
Definition prop_opt (name : string) (t : ty) : member := Property name true t.
Definition arg (name : string) (t : ty) : param := Param name false t.
Definition arg_opt (name : string) (t : ty) : param := Param name true t.

(** The names of the declared properties, in source order. *)
Definition property_names (ms : list member) : list string :=
  omap (fun m => match m with Property n _ _ => Some n | _ => None end) ms.

Definition is_optional (m : member) : bool :=
  match m with Property _ o _ => o | _ => false end.

(** The members of a declared object type; an intersection has the members
    of all its parts. *)
Fixpoint members_of (t : ty) : list member :=
  match t with
  | TObject ms => ms
  | TInter ts => flat_map members_of ts
  | _ => []
  end.

(** The members that instances have: all but the constructor and the
    static methods of a class. *)
Definition instance_member (m : member) : bool :=
  match m with
  | StaticMethod _ _ _ | Constructor _ => false
  | _ => true
  end.

(** A weak type: an object type that has members, all of them optional
    properties, or an intersection of such types. *)
Definition weak_members (ms : list member) : bool :=
  match List.filter instance_member ms with
  | [] => false
  | m :: rest => forallb is_optional (m :: rest)
  end.

Fixpoint weak (t : ty) : bool :=
  match t with
  | TObject ms => weak_members ms
  | TInter ts => match ts with [] => false | _ => forallb weak ts end
  | _ => false
  end.

(** The check that guards a weak type: an object that has fields must
    have one of the type's properties among them. The empty object
    passes, and so does every object when the type is not weak. *)
Definition common_property (t : ty) (fs : list (string * value)) : bool :=
  negb (weak t)
  || match fs with
     | [] => true
     | _ => existsb (fun k => carries k fs) (property_names (members_of t))
     end.

(** What an object type asks of an array or of a function, whose own
    members are not modelled: nothing, when its members are an index
    signature of type [any] and optional properties and it is not weak. *)
Definition asks_nothing (m : member) : bool :=
  match m with
  | IndexSignature TAny => true
  | Property _ o _ => o
  | StaticMethod _ _ _ | Constructor _ => true
  | _ => false
  end.

Section Typing.
(** The values of the named types, which the declarations leave to the
    libraries that own them. *)
Variable named : string → value → bool.

(** [member_ok check fs m]: the object with fields [fs] has what the
    member [m] asks for, the types of properties being checked by
    [check]. An optional property may be missing or [undefined]; a
    method is a field that holds a function. *)
Definition member_ok (check : ty → value → bool)
    (fs : list (string * value)) (m : member) : bool :=
  match m with
  | Property n o t' =>
      match get n fs with
      | None => o
      | Some w => check t' w || (o && is_undefined w)
      end
  | Method n _ _ =>
      match get n fs with Some (VFun _) => true | _ => false end
  | StaticMethod _ _ _ => true
  | Constructor _ => true
  | IndexSignature t' => forallb (fun kv => check t' (snd kv)) fs
  end.

(** [has_type t v]: [v] is assignable to [t], structurally, with strict
    null checks ([null] inhabits only [null] and [any]). An object must
    have what every member of an object type asks for; its further fields
    are not looked at; against a weak type it must pass
    [common_property]. For an intersection that check is made once,
    against the intersection, and not against its object parts. An array
    or a function inhabits the object types that ask nothing of it
    ([asks_nothing]), a primitive value inhabits none. A function value
    inhabits every function type and every method. *)
Fixpoint has_type (t : ty) (v : value) {struct t} : bool :=
  match t with
  | TAny => true
  | TVoid => is_undefined v
  | TNull => match v with VNull => true | _ => false end
  | TNumber => match v with VNum _ => true | _ => false end
  | TString => match v with VStr _ => true | _ => false end
  | TBoolean => match v with VBool _ => true | _ => false end
  | TStrLit s => match v with VStr s' => String.eqb s s' | _ => false end
  | TBoolLit b => match v with VBool b' => Bool.eqb b b' | _ => false end
  | TName n => named n v
  | TArray e => match v with VArr vs => forallb (has_type e) vs | _ => false end
  | TTuple ts =>
      match v with
      | VArr vs =>
          (fix each (ts : list ty) (vs : list value) {struct ts} : bool :=
             match ts, vs with
             | [], [] => true
             | t' :: ts', v' :: vs' => has_type t' v' && each ts' vs'
             | _, _ => false
             end) ts vs
      | _ => false
      end
  | TUnion ts => existsb (fun t' => has_type t' v) ts
  | TInter ts =>
      forallb
        (fun t' =>
           match t' with
           | TObject ms =>
               match v with
               | VObj fs => forallb (member_ok has_type fs) ms
               | VArr _ | VFun _ => forallb asks_nothing ms
               | _ => false
               end
           | _ => has_type t' v
           end) ts
      && match v with
         | VObj fs => common_property (TInter ts) fs
         | VArr _ | VFun _ => negb (weak (TInter ts))
         | _ => true
         end
  | TObject ms =>
      match v with
      | VObj fs =>
          forallb (member_ok has_type fs) ms && common_property (TObject ms) fs
      | VArr _ | VFun _ => forallb asks_nothing ms && negb (weak (TObject ms))
      | _ => false
      end
  | TFunction _ _ => match v with VFun _ => true | _ => false end
  end.

(** One argument against one parameter. *)
Definition arg_ok (p : param) (v : value) : bool :=
  has_type (ptype p) v || (poptional p && is_undefined v).

(** An argument list against a parameter list: no argument in excess,
    every parameter without an argument optional. *)
Fixpoint accepts (ps : list param) (args : list value) : bool :=
  match ps, args with
  | [], [] => true
  | [], _ :: _ => false
  | p :: ps', [] => poptional p && accepts ps' []
  | p :: ps', a :: args' => arg_ok p a && accepts ps' args'
  end.

(** The first signature, in declaration order, that accepts the
    arguments gives the type of the call's result. *)
Fixpoint resolve (sigs : list (list param * ty)) (args : list value) : option ty :=
  match sigs with
  | [] => None
  | (ps, r) :: rest => if accepts ps args then Some r else resolve rest args
  end.
End Typing.

(** The declared property [name] of a member list: its optional flag and type. *)
Fixpoint property (name : string) (ms : list member) : option (bool * ty) :=
  match ms with
  | [] => None
  | Property n o t :: rest => if String.eqb n name then Some (o, t) else property name rest
  | _ :: rest => property name rest
  end.

(** The signatures of the instance method [name], in source order. *)
Definition overloads (name : string) (ms : list member) : list (list param * ty) :=
  omap (fun m =>
          match m with
          | Method n ps r => if String.eqb n name then Some (ps, r) else None
          | _ => None
          end) ms.

(** The type of the call [o.name(args)] on an object with members [ms]. *)
Definition call (named : string → value → bool)
    (ms : list member) (name : string) (args : list value) : option ty :=
  resolve named (overloads name ms) args.

End Ts.

(** ** Source files *)

Module Src.
Import Ts.

(** How a declaration file names the types of another module. *)
Inductive type_import : Type :=
| Named (names : list string)        (* import { a, b } from 'm' *)
| Namespace (binding : string)       (* import * as x from 'm' *)
| RequireAssign (binding : string).  (* import x = require('m') *)

(** A top-level item of a source file. [RegisterCall] is the one expression
    statement the upstream entry file has besides its imports,
    [Quill.register({...})]; the repository's own files have none. *)
Inductive decl : Type :=
| ImportDefault (binding from : string)
| ImportTypes (what : type_import) (from : string)
| RegisterCall (target : string) (paths : list string)
| ExportType (name : string) (t : ty)
| ExportInterface (name : string) (t : ty)
| ExportClass (name : string) (implements : list string) (t : ty)
| ExportDefault (binding : string).

(** A source file; a declaration file only describes code that lives
    elsewhere. *)
Record source_file : Type := SourceFile {
  declaration_file : bool;
  items : list decl
}.

(** The exports that exist only for the type checker. *)
Definition type_only (d : decl) : bool :=
  match d with
  | ExportType _ _ | ExportInterface _ _ => true
  | _ => false
  end.

Definition exported_name (d : decl) : option string :=
  match d with
  | ExportType n _ | ExportInterface n _ | ExportClass n _ _ => Some n
  | _ => None
  end.

End Src.

(** ** The declarations of the source *)

Module Decls.
Import Js Ts Src.

(** Types owned by other libraries or by the browser. *)
Definition Delta : ty := TName "Delta".
Definition Blot : ty := TName "Blot".
Definition Parchment_Registry : ty := TName "Parchment.Registry".
Definition HTMLElement : ty := TName "HTMLElement".
Definition HTMLDivElement : ty := TName "HTMLDivElement".
Definition Element : ty := TName "Element".
Definition Node : ty := TName "Node".

Definition StringMap : ty :=
  TObject [IndexSignature TAny].

Definition OptionalAttributes : ty :=
  TObject [prop_opt "attributes" StringMap].

Definition DeltaOperation : ty :=
  TInter [TObject [prop_opt "insert" TAny;
                   prop_opt "delete" TNumber;
                   prop_opt "retain" TNumber];
          OptionalAttributes].

(** The stricter definition that the comment above [DeltaOperation] gives
    and the source does not adopt. *)
Definition StricterDeltaOperation : ty :=
  TInter [TUnion [TObject [prop "insert" TAny];
                  TObject [prop "delete" TNumber];
                  TObject [prop "retain" TNumber]];
          OptionalAttributes].

Definition Sources : ty :=
  TUnion [TStrLit "api"; TStrLit "user"; TStrLit "silent"].

Definition Key : ty :=
  TObject [prop "key" (TUnion [TString; TNumber]);
           prop_opt "shortKey" TBoolean;
           prop_opt "ctrlKey" TBoolean;
           prop_opt "shiftKey" TBoolean;
           prop_opt "altKey" TBoolean].

Definition BoundsStatic : ty :=
  TObject [prop "bottom" TNumber;
           prop "left" TNumber;
           prop "right" TNumber;
           prop "top" TNumber;
           prop "height" TNumber;
           prop "width" TNumber].

(** [interface RangeStatic]. *)
Definition RangeStatic : ty :=
  TObject [prop "index" TNumber;
           prop "length" TNumber].

(** [class RangeStatic implements RangeStatic], which merges with the
    interface of the same name. *)
Definition RangeStatic_class : ty :=
  TObject [Constructor [];
           prop "index" TNumber;
           prop "length" TNumber].

Definition TextChangeHandler : ty :=
  TFunction [arg "delta" Delta; arg "oldContents" Delta; arg "source" Sources] TAny.

Definition SelectionChangeHandler : ty :=
  TFunction [arg "range" RangeStatic; arg "oldRange" RangeStatic; arg "source" Sources] TAny.

Definition EditorChangeHandler : ty :=
  TUnion [TFunction [arg "name" (TStrLit "text-change");
                     arg "delta" Delta; arg "oldContents" Delta; arg "source" Sources] TAny;
          TFunction [arg "name" (TStrLit "selection-change");
                     arg "range" RangeStatic; arg "oldRange" RangeStatic; arg "source" Sources] TAny].

Definition KeyboardStatic : ty :=
  TObject [Method "addBinding"
             [arg "key" Key;
              arg "callback" (TFunction [arg "range" RangeStatic; arg "context" TAny] TVoid)]
             TVoid;
           Method "addBinding"
             [arg "key" Key;
              arg "context" TAny;
              arg "callback" (TFunction [arg "range" RangeStatic; arg "context" TAny] TVoid)]
             TVoid].

Definition ClipboardMatcherCallback : ty :=
  TFunction [arg "node" TAny; arg "delta" Delta] Delta.

Definition ClipboardMatcherNode : ty :=
  TUnion [TString; TNumber].

Definition ClipboardStatic : ty :=
  TObject [prop "matchers" (TArray (TTuple [ClipboardMatcherNode; ClipboardMatcherCallback]));
           Method "convert"
             [arg_opt "content" (TObject [prop_opt "html" TString; prop_opt "text" TString]);
              arg_opt "formats" StringMap]
             Delta;
           Method "addMatcher"
             [arg "selectorOrNodeType" ClipboardMatcherNode;
              arg "callback" ClipboardMatcherCallback]
             TVoid;
           Method "dangerouslyPasteHTML"
             [arg "html" TString; arg_opt "source" Sources] TVoid;
           Method "dangerouslyPasteHTML"
             [arg "index" TNumber; arg "html" TString; arg_opt "source" Sources] TVoid].

Definition QuillOptionsStatic : ty :=
  TObject [prop_opt "debug" (TUnion [TString; TBoolean]);
           prop_opt "modules" StringMap;
           prop_opt "placeholder" TString;
           prop_opt "readOnly" TBoolean;
           prop_opt "theme" TString;
           prop_opt "formats" (TArray TString);
           prop_opt "bounds" (TUnion [HTMLElement; TString]);
           prop_opt "scrollingContainer" (TUnion [HTMLElement; TString]);
           prop_opt "strict" TBoolean;
           prop_opt "registry" Parchment_Registry].

(** [interface EventEmitter]; its methods return [EventEmitter] itself. *)
Definition EventEmitter : ty :=
  TObject [Method "on" [arg "eventName" (TStrLit "text-change"); arg "handler" TextChangeHandler]
             (TName "EventEmitter");
           Method "on" [arg "eventName" (TStrLit "selection-change"); arg "handler" SelectionChangeHandler]
             (TName "EventEmitter");
           Method "on" [arg "eventName" (TStrLit "editor-change"); arg "handler" EditorChangeHandler]
             (TName "EventEmitter");
           Method "once" [arg "eventName" (TStrLit "text-change"); arg "handler" TextChangeHandler]
             (TName "EventEmitter");
           Method "once" [arg "eventName" (TStrLit "selection-change"); arg "handler" SelectionChangeHandler]
             (TName "EventEmitter");
           Method "once" [arg "eventName" (TStrLit "editor-change"); arg "handler" EditorChangeHandler]
             (TName "EventEmitter");
           Method "off" [arg "eventName" (TStrLit "text-change"); arg "handler" TextChangeHandler]
             (TName "EventEmitter");
           Method "off" [arg "eventName" (TStrLit "selection-change"); arg "handler" SelectionChangeHandler]
             (TName "EventEmitter");
           Method "off" [arg "eventName" (TStrLit "editor-change"); arg "handler" EditorChangeHandler]
             (TName "EventEmitter")].

(** [class Quill implements EventEmitter]. *)
Definition Quill : ty :=
  TObject [prop "root" HTMLDivElement;
           prop "clipboard" ClipboardStatic;
           prop "scroll" Blot;
           prop "keyboard" KeyboardStatic;
           Constructor [arg "container" (TUnion [TString; Element]);
                        arg_opt "options" QuillOptionsStatic];
           Method "deleteText"
             [arg "index" TNumber; arg "length" TNumber; arg_opt "source" Sources] Delta;
           Method "disable" [] TVoid;
           Method "enable" [arg_opt "enabled" TBoolean] TVoid;
           Method "getContents" [arg_opt "index" TNumber; arg_opt "length" TNumber] Delta;
           Method "getLength" [] TNumber;
           Method "getText" [arg_opt "index" TNumber; arg_opt "length" TNumber] TString;
           Method "insertEmbed"
             [arg "index" TNumber; arg "type" TString; arg "value" TAny; arg_opt "source" Sources]
             Delta;
           Method "insertText"
             [arg "index" TNumber; arg "text" TString; arg_opt "source" Sources] Delta;
           Method "insertText"
             [arg "index" TNumber; arg "text" TString;
              arg "format" TString; arg "value" TAny; arg_opt "source" Sources] Delta;
           Method "insertText"
             [arg "index" TNumber; arg "text" TString;
              arg "formats" StringMap; arg_opt "source" Sources] Delta;
           Method "pasteHTML"
             [arg "index" TNumber; arg "html" TString; arg_opt "source" Sources] TString;
           Method "pasteHTML" [arg "html" TString; arg_opt "source" Sources] TString;
           Method "setContents" [arg "delta" Delta; arg_opt "source" Sources] Delta;
           Method "setText" [arg "text" TString; arg_opt "source" Sources] Delta;
           Method "update" [arg_opt "source" Sources] TVoid;
           Method "updateContents" [arg "delta" Delta; arg_opt "source" Sources] Delta;

           Method "format"
             [arg "name" TString; arg "value" TAny; arg_opt "source" Sources] Delta;
           Method "formatLine"
             [arg "index" TNumber; arg "length" TNumber; arg_opt "source" Sources] Delta;
           Method "formatLine"
             [arg "index" TNumber; arg "length" TNumber;
              arg "format" TString; arg "value" TAny; arg_opt "source" Sources] Delta;
           Method "formatLine"
             [arg "index" TNumber; arg "length" TNumber;
              arg "formats" StringMap; arg_opt "source" Sources] Delta;
           Method "formatText"
             [arg "index" TNumber; arg "length" TNumber; arg_opt "source" Sources] Delta;
           Method "formatText"
             [arg "index" TNumber; arg "length" TNumber;
              arg "format" TString; arg "value" TAny; arg_opt "source" Sources] Delta;
           Method "formatText"
             [arg "index" TNumber; arg "length" TNumber;
              arg "formats" StringMap; arg_opt "source" Sources] Delta;
           Method "formatText"
             [arg "range" RangeStatic; arg "format" TString; arg "value" TAny;
              arg_opt "source" Sources] Delta;
           Method "formatText"
             [arg "range" RangeStatic; arg "formats" StringMap; arg_opt "source" Sources] Delta;
           Method "getFormat" [arg_opt "range" RangeStatic] StringMap;
           Method "getFormat" [arg "index" TNumber; arg_opt "length" TNumber] StringMap;
           Method "removeFormat"
             [arg "index" TNumber; arg "length" TNumber; arg_opt "source" Sources] Delta;

           Method "blur" [] TVoid;
           Method "focus" [] TVoid;
           Method "getBounds" [arg "index" TNumber; arg_opt "length" TNumber] BoundsStatic;
           Method "getSelection" [arg "focus" (TBoolLit true)] RangeStatic;
           Method "getSelection" [arg_opt "focus" (TBoolLit false)] (TUnion [RangeStatic; TNull]);
           Method "hasFocus" [] TBoolean;
           Method "setSelection"
             [arg "index" TNumber; arg "length" TNumber; arg_opt "source" Sources] TVoid;
           Method "setSelection" [arg "range" RangeStatic; arg_opt "source" Sources] TVoid;

           StaticMethod "debug" [arg "level" (TUnion [TString; TBoolean])] TVoid;
           StaticMethod "import" [arg "path" TString] TAny;
           StaticMethod "register"
             [arg "path" TString; arg "def" TAny; arg_opt "suppressWarning" TBoolean] TVoid;
           StaticMethod "register"
             [arg "defs" StringMap; arg_opt "suppressWarning" TBoolean] TVoid;
           StaticMethod "find"
             [arg "domNode" Node; arg_opt "bubble" TBoolean] (TUnion [TName "Quill"; TAny]);

           Method "addContainer"
             [arg "classNameOrDomNode" (TUnion [TString; Node]); arg_opt "refNode" Node] TAny;
           Method "getModule" [arg "name" TString] TAny;

           Method "getIndex" [arg "blot" TAny] TNumber;
           Method "getLeaf" [arg "index" TNumber] TAny;
           Method "getLine" [arg "index" TNumber] (TTuple [TAny; TNumber]);
           Method "getLines" [arg_opt "index" TNumber; arg_opt "length" TNumber] (TArray TAny);
           Method "getLines" [arg "range" RangeStatic] (TArray TAny);

           Method "on" [arg "eventName" (TStrLit "text-change"); arg "handler" TextChangeHandler]
             (TName "EventEmitter");
           Method "on" [arg "eventName" (TStrLit "selection-change"); arg "handler" SelectionChangeHandler]
             (TName "EventEmitter");
           Method "on" [arg "eventName" (TStrLit "editor-change"); arg "handler" EditorChangeHandler]
             (TName "EventEmitter");
           Method "once" [arg "eventName" (TStrLit "text-change"); arg "handler" TextChangeHandler]
             (TName "EventEmitter");
           Method "once" [arg "eventName" (TStrLit "selection-change"); arg "handler" SelectionChangeHandler]
             (TName "EventEmitter");
           Method "once" [arg "eventName" (TStrLit "editor-change"); arg "handler" EditorChangeHandler]
             (TName "EventEmitter");
           Method "off" [arg "eventName" (TStrLit "text-change"); arg "handler" TextChangeHandler]
             (TName "EventEmitter");
           Method "off" [arg "eventName" (TStrLit "selection-change"); arg "handler" SelectionChangeHandler]
             (TName "EventEmitter");
           Method "off" [arg "eventName" (TStrLit "editor-change"); arg "handler" EditorChangeHandler]
             (TName "EventEmitter")].

(** *** The two source files, item by item in source order *)

(** [quill.ts]: the re-export shim. *)
Definition quill_ts : source_file :=
  SourceFile false
    [ImportDefault "Quill" "./core";
     ExportDefault "Quill"].

(** The type declarations for Quill 2.0, a declaration file. *)
Definition quill_d_ts : source_file :=
  SourceFile true
    [ImportTypes (Named ["Blot"]) "parchment/src/blot/abstract/blot";
     ImportTypes (Namespace "Parchment") "parchment";
     ImportTypes (RequireAssign "Delta") "quill-delta";
     ExportType "DeltaOperation" DeltaOperation;
     ExportType "Sources" Sources;
     ExportInterface "Key" Key;
     ExportInterface "StringMap" StringMap;
     ExportInterface "OptionalAttributes" OptionalAttributes;
     ExportType "TextChangeHandler" TextChangeHandler;
     ExportType "SelectionChangeHandler" SelectionChangeHandler;
     ExportType "EditorChangeHandler" EditorChangeHandler;
     ExportInterface "KeyboardStatic" KeyboardStatic;
     ExportType "ClipboardMatcherCallback" ClipboardMatcherCallback;
     ExportType "ClipboardMatcherNode" ClipboardMatcherNode;
     ExportInterface "ClipboardStatic" ClipboardStatic;
     ExportInterface "QuillOptionsStatic" QuillOptionsStatic;
     ExportInterface "BoundsStatic" BoundsStatic;
     ExportInterface "RangeStatic" RangeStatic;
     ExportClass "RangeStatic" ["RangeStatic"] RangeStatic_class;
     ExportInterface "EventEmitter" EventEmitter;
     ExportClass "Quill" ["EventEmitter"] Quill;
     ExportDefault "Quill"].

End Decls.

(** ** Importing a source file at run time *)

Module Loader.
Import Src Decls.

(** The statements left of a source file once its types are erased. *)
Inductive js : Type :=
| JsImport (binding from : string)
| JsRegister (target : string) (paths : list string)
| JsExportDefault (binding : string).

(** Type aliases and interfaces are erased wherever they stand; so are the
    imports that only name types and a class that has no body. *)
Definition emit_decl (d : decl) : list js :=
  match d with
  | ImportDefault x from => [JsImport x from]
  | ImportTypes _ _ => []
  | RegisterCall target paths => [JsRegister target paths]
  | ExportType _ _ => []
  | ExportInterface _ _ => []
  | ExportClass _ _ _ => []
  | ExportDefault x => [JsExportDefault x]
  end.

(** A declaration file compiles to nothing at all. *)
Definition emit (f : source_file) : list js :=
  if declaration_file f then [] else flat_map emit_decl (items f).

Section Run.
(** [V]: the values modules export (the editor constructor among them);
    [E]: the errors a module can raise while it loads. *)
Context {V E : Type}.

(** The result of loading: a value and the registry of formatting modules
    (the paths registered so far), or the error raised. *)
Inductive outcome (A : Type) : Type :=
| Loaded (a : A) (registry : gset string)
| Failed (e : E).
Arguments Loaded {A} _ _.
Arguments Failed {A} _.

Definition Loading (A : Type) : Type := gset string → outcome A.

Definition ret {A : Type} (a : A) : Loading A :=
  fun reg => Loaded a reg.

Definition bind {A B : Type} (c : Loading A) (k : A → Loading B) : Loading B :=
  fun reg =>
    match c reg with
    | Loaded a reg' => k a reg'
    | Failed e => Failed e
    end.

Definition throw {A : Type} (e : E) : Loading A :=
  fun _ => Failed e.

(** [Quill.register(...)]: the paths join the registry. *)
Definition register (paths : list string) : Loading unit :=
  fun reg => Loaded tt (reg ∪ list_to_set paths).

(** [resolver from]: loading the module at path [from], which yields its
    default export. ['./core'] is such a module; its code is not part of
    the sources at hand. [reference_error x]: the error of reading the
    unbound name [x]. *)
Variable resolver : string → Loading V.
Variable reference_error : string → E.

(** The module being loaded: its bindings and its default export. *)
Record scope : Type := Scope {
  bindings : gmap string V;
  default : option V
}.

Definition empty_scope : scope := Scope ∅ None.

Fixpoint exec (code : list js) (m : scope) : Loading scope :=
  match code with
  | [] => ret m
  | JsImport x from :: rest =>
      bind (resolver from) (fun v => exec rest (Scope (<[x := v]> (bindings m)) (default m)))
  | JsRegister target paths :: rest =>
      match bindings m !! target with
      | Some _ => bind (register paths) (fun _ => exec rest m)
      | None => throw (reference_error target)
      end
  | JsExportDefault x :: rest =>
      match bindings m !! x with
      | Some v => exec rest (Scope (bindings m) (Some v))
      | None => throw (reference_error x)
      end
  end.

(** [import ... from f]: run what [f] compiles to, in a fresh scope. *)
Definition import_file (f : source_file) : Loading scope :=
  exec (emit f) empty_scope.

(** The default export that importing [f] yields. *)
Definition import_default (f : source_file) : Loading (option V) :=
  bind (import_file f) (fun m => ret (default m)).

(** Modelled from the spec: the upstream entry file, which is not in the
    sources. It imports the same constructor, registers a full set of
    formatting modules at import time, and exports the constructor. *)
Definition upstream_quill_ts (formats : list string) : source_file :=
  SourceFile false
    [ImportDefault "Quill" "./core";
     RegisterCall "Quill" formats;
     ExportDefault "Quill"].

(** Modelled from the spec: the use of a format by an editor, which is the
    work of ['./core'] and not in the sources. A format takes effect on the
    document only when it is registered. *)
Definition use_format {Doc : Type} (registry : gset string)
    (name : string) (effect : Doc → Doc) (doc : Doc) : Doc :=
  if decide (name ∈ registry) then effect doc else doc.

(** The registry after an outcome, [fallback] when loading failed. *)
Definition registry_of {A : Type} (o : outcome A) (fallback : gset string) : gset string :=
  match o with
  | Loaded _ reg => reg
  | Failed _ => fallback
  end.

End Run.

Arguments outcome : clear implicits.
Arguments Loading : clear implicits.
Arguments scope : clear implicits.
Arguments Loaded {E A} _ _.
Arguments Failed {E A} _.

End Loader.

(** ** Vocabulary of the properties *)

Module Shape.
Import Js Ts Decls.

(** The object carries a number under [k]. *)
Definition has_number (k : string) (fs : list (string * value)) : bool :=
  match get k fs with Some (VNum _) => true | _ => false end.

(** The object's field [k], when it carries one, has type [t] (or is
    [undefined], which an optional property also admits). *)
Definition field_fits (named : string → value → bool)
    (k : string) (t : ty) (fs : list (string * value)) : bool :=
  match get k fs with
  | None => true
  | Some w => has_type named t w || is_undefined w
  end.

(** How many of the keys [ks] the object carries. *)
Definition carried (ks : list string) (fs : list (string * value)) : nat :=
  length (List.filter (fun k => match get k fs with Some _ => true | None => false end) ks).

Definition operation_keys : list string := ["insert"; "delete"; "retain"].

(** The three events of the subscription methods, each with the handler
    type its signature declares. *)
Definition events : list (string * ty) :=
  [("text-change", TextChangeHandler);
   ("selection-change", SelectionChangeHandler);
   ("editor-change", EditorChangeHandler)].

Definition event_signature (e : string * ty) : list param * ty :=
  ([Param "eventName" false (TStrLit (fst e)); Param "handler" false (snd e)],
   TName "EventEmitter").

Definition is_event (name : string) : bool :=
  existsb (fun e => String.eqb (fst e) name) events.

(** A handler of the combined notification takes the event's name and
    then what the event's own handler takes. *)
Definition named_payload (name : string) (handler : ty) : ty :=
  match handler with
  | TFunction ps r => TFunction (Param "name" false (TStrLit name) :: ps) r
  | t => t
  end.

Definition subscription_methods : list string := ["on"; "once"; "off"].

Definition content_mutation_methods : list string :=
  ["deleteText"; "insertEmbed"; "insertText"; "setContents"; "setText";
   "updateContents"; "format"; "formatLine"; "formatText"; "removeFormat"].

Definition nullable (named : string → value → bool) (t : ty) : bool :=
  has_type named t VNull.

End Shape.

(** * Properties *)

Import Js Ts Src Decls Loader Shape.

(** ** Helper lemmas on typing *)

Section TypingFacts.
Variable named : string → value → bool.

Lemma has_number_spec k fs :
  has_number k fs = true ↔ ∃ z, get k fs = Some (VNum z).
Proof.
  unfold has_number. destruct (get k fs) as [[]|]; split;
    try discriminate; try (intros [z Hz]; discriminate); eauto.
Qed.

Lemma required_number k fs :
  match get k fs with
  | None => false
  | Some w => match w with VNum _ => true | _ => false end || (false && is_undefined w)
  end = has_number k fs.
Proof. unfold has_number. destruct (get k fs) as [[]|]; reflexivity. Qed.

(** A type that is not weak asks for no common property. *)
Lemma common_property_strong t fs : weak t = false → common_property t fs = true.
Proof. unfold common_property. intros ->. reflexivity. Qed.

Lemma StringMap_object fs : has_type named StringMap (VObj fs) = true.
Proof.
  cbn [StringMap has_type forallb member_ok].
  rewrite common_property_strong, !andb_true_r by reflexivity.
  induction fs as [|kv fs IH]; [reflexivity | exact IH].
Qed.

Lemma resolve_In sigs args r :
  resolve named sigs args = Some r → ∃ ps, (ps, r) ∈ sigs.
Proof.
  induction sigs as [|[ps r'] sigs IH]; cbn; [discriminate|].
  destruct (accepts named ps args).
  - intros [= <-]. exists ps. apply list_elem_of_here.
  - intros H. destruct (IH H) as [ps' Hin]. exists ps'.
    by apply list_elem_of_further.
Qed.

Lemma call_In ms m args r :
  call named ms m args = Some r → ∃ ps, (ps, r) ∈ overloads m ms.
Proof. unfold call. apply resolve_In. Qed.

Lemma accepts_event e hty name h :
  has_type named hty (VFun h) = true →
  accepts named [Param "eventName" false (TStrLit e); Param "handler" false hty]
          [VStr name; VFun h] = String.eqb e name.
Proof.
  intros H. unfold accepts, arg_ok. cbn [ptype poptional]. rewrite H.
  change (has_type named (TStrLit e) (VStr name)) with (String.eqb e name).
  destruct (String.eqb e name); reflexivity.
Qed.

End TypingFacts.

(** ** The declared shapes *)

(** C6: the declared Range type is exactly a pair of a numeric [index] and
    a numeric [length]: these are its two members, both required numbers;
    the class of the same name adds a constructor and no field; and a value
    is a Range exactly when it is an object carrying a number under
    [index] and a number under [length], whatever else it carries. *)
Theorem RangeStatic_is_index_length_pair :
  members_of RangeStatic
    = [Property "index" false TNumber; Property "length" false TNumber]
  ∧ property_names (members_of RangeStatic_class) = ["index"; "length"]
  ∧ (∀ named v, has_type named RangeStatic_class v = has_type named RangeStatic v)
  ∧ (∀ named v,
       has_type named RangeStatic v = true ↔
       ∃ fs, v = VObj fs
             ∧ (∃ i, get "index" fs = Some (VNum i))
             ∧ (∃ l, get "length" fs = Some (VNum l))).
Proof.
  split; [reflexivity|]. split; [reflexivity|]. split.
  - intros named [| | | | | |fs|]; reflexivity.
  - intros named v. destruct v as [| | | | | |fs|];
      try (split; [discriminate | intros (fs' & [=] & _)]).
    cbn [RangeStatic prop has_type forallb member_ok].
    rewrite common_property_strong by reflexivity.
    rewrite !required_number, !andb_true_r, andb_true_iff, !has_number_spec.
    split.
    + intros [Hi Hl]. exists fs. auto.
    + intros (fs' & [= <-] & Hi & Hl). auto.
Qed.

(** C7: the declared Bounds type is a rectangle of exactly six numeric
    fields: it has six members, each of [top], [right], [bottom], [left],
    [width] and [height] is a required number, and a value is a Bounds
    exactly when it is an object carrying a number under each of the six. *)
Theorem BoundsStatic_is_six_number_rectangle :
  length (members_of BoundsStatic) = 6
  ∧ Forall (fun k => property k (members_of BoundsStatic) = Some (false, TNumber))
           ["top"; "right"; "bottom"; "left"; "width"; "height"]
  ∧ (∀ named v,
       has_type named BoundsStatic v = true ↔
       ∃ fs, v = VObj fs
             ∧ Forall (fun k => ∃ z, get k fs = Some (VNum z))
                      ["top"; "right"; "bottom"; "left"; "width"; "height"]).
Proof.
  split; [reflexivity|]. split; [repeat constructor|].
  intros named v. destruct v as [| | | | | |fs|];
    try (split; [discriminate | intros (fs' & [=] & _)]).
  cbn [BoundsStatic prop has_type forallb member_ok].
  rewrite common_property_strong by reflexivity.
  rewrite !required_number, !andb_true_r, !andb_true_iff, !has_number_spec.
  split.
  - intros (Hb & Hl & Hr & Ht & Hh & Hw). exists fs. split; [reflexivity|].
    repeat (apply Forall_cons; split; [assumption|]). apply Forall_nil. exact I.
  - intros (fs' & [= <-] & HF).
    rewrite !Forall_cons in HF.
    destruct HF as (Ht & Hr & Hb & Hl & Hw & Hh & _). auto 10.
Qed.

(** C5: the declared construction options contain [debug], [modules],
    [placeholder], [readOnly], [theme], [formats], [bounds] and [registry],
    each optional and of the type shown; every member of the options type
    is optional; and the empty options bag is a valid value of it. *)
Theorem QuillOptionsStatic_fields_are_optional :
  map (fun k => property k (members_of QuillOptionsStatic))
      ["debug"; "modules"; "placeholder"; "readOnly";
       "theme"; "formats"; "bounds"; "registry"]
    = [Some (true, TUnion [TString; TBoolean]);
       Some (true, StringMap);
       Some (true, TString);
       Some (true, TBoolean);
       Some (true, TString);
       Some (true, TArray TString);
       Some (true, TUnion [HTMLElement; TString]);
       Some (true, Parchment_Registry)]
  ∧ forallb is_optional (members_of QuillOptionsStatic) = true
  ∧ (∀ named, has_type named QuillOptionsStatic (VObj []) = true).
Proof. repeat split. Qed.

(** C8, as amended: in [DeltaOperation] the fields [insert], [delete] and
    [retain] and the [attributes] map are all optional. The empty object
    is a valid operation, and so is every object that carries at least
    one of the four fields, each field it carries being of its declared
    type, whether it carries none, one, two or all three of [insert],
    [delete] and [retain]: validity is decided field by field and never by
    how many of the three are there. An object that has fields but none of
    the four is not a valid operation. The stricter type of the source's
    comment rejects every object that carries none of the three. *)
Theorem DeltaOperation_fields_all_optional :
  forallb is_optional (members_of DeltaOperation) = true
  ∧ property_names (members_of DeltaOperation)
      = ["insert"; "delete"; "retain"; "attributes"]
  ∧ (∀ named fs,
       has_type named DeltaOperation (VObj fs)
         = field_fits named "delete" TNumber fs
           && field_fits named "retain" TNumber fs
           && field_fits named "attributes" StringMap fs
           && common_property DeltaOperation fs)
  ∧ (∀ named fs,
       field_fits named "delete" TNumber fs = true →
       field_fits named "retain" TNumber fs = true →
       field_fits named "attributes" StringMap fs = true →
       fs = []
       ∨ existsb (fun k => carries k fs) ["insert"; "delete"; "retain"; "attributes"]
         = true →
       has_type named DeltaOperation (VObj fs) = true)
  ∧ (∀ named fs,
       fs ≠ [] →
       Forall (fun k => get k fs = None) ["insert"; "delete"; "retain"; "attributes"] →
       has_type named DeltaOperation (VObj fs) = false)
  ∧ (∀ named,
       (carried operation_keys [] = 0
        ∧ has_type named DeltaOperation (VObj []) = true)
       ∧ (carried operation_keys [("delete", VNum 1); ("retain", VNum 2)] = 2
          ∧ has_type named DeltaOperation
              (VObj [("delete", VNum 1); ("retain", VNum 2)]) = true)
       ∧ (carried operation_keys
            [("insert", VStr "a"); ("delete", VNum 1); ("retain", VNum 2)] = 3
          ∧ has_type named DeltaOperation
              (VObj [("insert", VStr "a"); ("delete", VNum 1); ("retain", VNum 2)]) = true))
  ∧ (∀ named fs,
       carried operation_keys fs = 0 →
       has_type named StricterDeltaOperation (VObj fs) = false).
Proof.
  assert (Hchar : ∀ named fs,
             has_type named DeltaOperation (VObj fs)
             = field_fits named "delete" TNumber fs
               && field_fits named "retain" TNumber fs
               && field_fits named "attributes" StringMap fs
               && common_property DeltaOperation fs).
  { intros named fs. unfold DeltaOperation, OptionalAttributes.
    cbn [prop_opt has_type forallb member_ok].
    unfold field_fits.
    destruct (get "insert" fs) as [wi|];
      destruct (get "delete" fs) as [wd|];
      destruct (get "retain" fs) as [wr|];
      destruct (get "attributes" fs) as [wa|];
      cbn [orb andb];
      rewrite ?andb_true_r, ?orb_true_r; reflexivity. }
  split; [reflexivity|]. split; [reflexivity|]. split; [exact Hchar|].
  split; [|split; [|split]].
  - intros named fs Hd Hr Ha Hcommon. rewrite Hchar, Hd, Hr, Ha. cbn [andb].
    unfold common_property. apply orb_true_iff. right.
    destruct Hcommon as [->|Hsome]; [reflexivity|].
    destruct fs; [reflexivity | exact Hsome].
  - intros named fs Hfs HF. rewrite Hchar.
    rewrite !Forall_cons in HF. destruct HF as (Hi & Hd & Hr & Ha & _).
    assert (Hcommon : common_property DeltaOperation fs = false).
    { unfold common_property. destruct fs as [|kv fs]; [congruence|].
      cbn [weak DeltaOperation OptionalAttributes members_of flat_map app
           property_names omap list_omap prop_opt existsb negb orb].
      unfold carries. rewrite Hi, Hd, Hr, Ha. reflexivity. }
    rewrite Hcommon. apply andb_false_r.
  - intros named. repeat split.
  - intros named fs Hnone.
    unfold carried, operation_keys in Hnone. cbn [List.filter] in Hnone.
    unfold StricterDeltaOperation, OptionalAttributes.
    cbn [prop prop_opt has_type forallb existsb member_ok].
    destruct (get "insert" fs); [discriminate|].
    destruct (get "delete" fs); [discriminate|].
    destruct (get "retain" fs); [discriminate|].
    reflexivity.
Qed.

(** The amended C8 at an object that carries two of the three operation
    fields. *)
Lemma DeltaOperation_fields_all_optional_witness :
  has_type (fun _ _ => false) DeltaOperation
    (VObj [("delete", VNum 1); ("retain", VNum 2)]) = true.
Proof.
  destruct DeltaOperation_fields_all_optional as (_ & _ & _ & Hvalid & _).
  apply Hvalid; [reflexivity | reflexivity | reflexivity | right; reflexivity].
Defined.

(** C8 as it was stated fails: the object [{ ops: 0 }] carries none of
    [insert], [delete], [retain] and [attributes], and is not a valid
    operation; and the object [{ delete: "x", retain: 1 }] carries more
    than one of the three, and is not a valid operation either, its
    [delete] not being a number. *)
Lemma DeltaOperation_rejects_foreign_object :
  (Forall (fun k => get k [("ops", VNum 0)] = None)
          ["insert"; "delete"; "retain"; "attributes"]
   ∧ carried operation_keys [("ops", VNum 0)] = 0
   ∧ has_type (fun _ _ => false) DeltaOperation (VObj [("ops", VNum 0)]) = false)
  ∧ (carried operation_keys [("delete", VStr "x"); ("retain", VNum 1)] = 2
     ∧ has_type (fun _ _ => false) DeltaOperation
         (VObj [("delete", VStr "x"); ("retain", VNum 1)]) = false).
Proof. split; [split; [repeat constructor | split; reflexivity] | split; reflexivity]. Qed.

(** ** The declared methods *)

(** C3: the editor class declares [on], [once] and [off], each with
    exactly three signatures, one per event name ([text-change],
    [selection-change], [editor-change]) with that event's handler type,
    as [EventEmitter] declares them; a subscription call resolves exactly
    when its event name is one of the three; and the handler types match
    the change payloads: content changes carry two deltas and the source,
    selection changes two ranges and the source, and the combined
    notification the name of either event followed by its payload. *)
Theorem subscription_methods_take_three_events :
  map fst events = ["text-change"; "selection-change"; "editor-change"]
  ∧ Forall (fun m =>
              overloads m (members_of Quill) = map event_signature events
              ∧ overloads m (members_of EventEmitter) = map event_signature events
              ∧ ∀ named name h,
                  call named (members_of Quill) m [VStr name; VFun h]
                  = if is_event name then Some (TName "EventEmitter") else None)
           subscription_methods
  ∧ TextChangeHandler
      = TFunction [arg "delta" Delta; arg "oldContents" Delta; arg "source" Sources] TAny
  ∧ SelectionChangeHandler
      = TFunction [arg "range" RangeStatic; arg "oldRange" RangeStatic; arg "source" Sources] TAny
  ∧ EditorChangeHandler
      = TUnion [named_payload "text-change" TextChangeHandler;
                named_payload "selection-change" SelectionChangeHandler].
Proof.
  split; [reflexivity|]. split; [|repeat split].
  unfold subscription_methods.
  repeat (apply Forall_cons; split; [|]); [| | |apply Forall_nil; exact I].
  all: split; [reflexivity|]; split; [reflexivity|].
  all: intros named name h; unfold call.
  1: change (overloads "on" (members_of Quill)) with (map event_signature events).
  2: change (overloads "once" (members_of Quill)) with (map event_signature events).
  3: change (overloads "off" (members_of Quill)) with (map event_signature events).
  all: cbn [map events event_signature resolve fst snd];
       rewrite !accepts_event by reflexivity;
       unfold is_event; cbn [existsb events fst];
       destruct (String.eqb "text-change" name);
       destruct (String.eqb "selection-change" name);
       destruct (String.eqb "editor-change" name); reflexivity.
Qed.

(** C9: [getSelection] has two signatures. A call with [focus] true takes
    the first, whose result type [RangeStatic] does not admit [null]. A
    call whose result type admits [null] has at most one argument, and
    that argument is missing ([undefined]) or [false]; the calls with no
    argument and with [false] both resolve to [RangeStatic | null]. *)
Theorem getSelection_null_only_without_focus :
  ∀ named,
    overloads "getSelection" (members_of Quill)
      = [([arg "focus" (TBoolLit true)], RangeStatic);
         ([arg_opt "focus" (TBoolLit false)], TUnion [RangeStatic; TNull])]
    ∧ call named (members_of Quill) "getSelection" [VBool true] = Some RangeStatic
    ∧ nullable named RangeStatic = false
    ∧ call named (members_of Quill) "getSelection" []
        = Some (TUnion [RangeStatic; TNull])
    ∧ call named (members_of Quill) "getSelection" [VBool false]
        = Some (TUnion [RangeStatic; TNull])
    ∧ nullable named (TUnion [RangeStatic; TNull]) = true
    ∧ (∀ args r,
         call named (members_of Quill) "getSelection" args = Some r →
         argument 0 args = VBool true →
         r = RangeStatic ∧ nullable named r = false)
    ∧ (∀ args r,
         call named (members_of Quill) "getSelection" args = Some r →
         nullable named r = true →
         args = [] ∨ args = [VUndefined] ∨ args = [VBool false]).
Proof.
  intros named. do 6 (split; [reflexivity|]). split.
  - intros args r Hcall Hfocus.
    destruct args as [|a [|b rest]]; cbn in Hfocus; subst; try discriminate.
    revert Hcall. cbv. intros [= <-]. split; reflexivity.
  - intros args r Hcall Hnull.
    destruct args as [|a [|b rest]]; [auto | |].
    + destruct a as [| |[]| | | | |]; revert Hcall; cbv;
        try discriminate; auto.
      intros [= <-]. discriminate Hnull.
    + destruct a as [| |[]| | | | |]; revert Hcall; cbv; discriminate.
Qed.

(** C9 at the call [getSelection(false)], whose result may be [null]. *)
Lemma getSelection_null_only_without_focus_witness :
  [VBool false] = [] ∨ [VBool false] = [VUndefined] ∨ [VBool false] = [VBool false].
Proof.
  destruct (getSelection_null_only_without_focus (fun _ _ => false))
    as (_ & _ & _ & _ & _ & _ & _ & Hnull).
  apply (Hnull [VBool false] (TUnion [RangeStatic; TNull])); reflexivity.
Defined.

(** C10: each of the ten content-mutation methods is declared, with the
    number of signatures shown, and every one of its signatures returns
    [Delta]; so whatever call to one of them resolves, its result type is
    [Delta] and not [void]. *)
Theorem content_mutation_methods_return_Delta :
  map (fun m => length (overloads m (members_of Quill))) content_mutation_methods
    = [1; 1; 3; 1; 1; 1; 1; 3; 5; 1]
  ∧ Forall (fun m => Forall (fun sig => snd sig = Delta) (overloads m (members_of Quill)))
           content_mutation_methods
  ∧ (∀ named m args r,
       m ∈ content_mutation_methods →
       call named (members_of Quill) m args = Some r →
       r = Delta ∧ r ≠ TVoid).
Proof.
  assert (Hall : Forall (fun m => Forall (fun sig => snd sig = Delta)
                                    (overloads m (members_of Quill)))
                   content_mutation_methods).
  { unfold content_mutation_methods.
    repeat (apply Forall_cons; split; [vm_compute; repeat constructor|]).
    apply Forall_nil; exact I. }
  split; [vm_compute; reflexivity|]. split; [exact Hall|].
  intros named m args r Hin Hcall.
  destruct (call_In named _ _ _ _ Hcall) as [ps Hps].
  assert (Hr := proj1 (Forall_forall _ _)
                  (proj1 (Forall_forall _ _) Hall m Hin) (ps, r) Hps).
  change (r = Delta) in Hr. split; [exact Hr | rewrite Hr; discriminate].
Qed.

(** C10 at the call [setText("a")]. *)
Lemma content_mutation_methods_return_Delta_witness :
  call (fun _ _ => false) (members_of Quill) "setText" [VStr "a"] = Some Delta
  ∧ Delta = Delta ∧ Delta ≠ TVoid.
Proof.
  split; [vm_compute; reflexivity|].
  destruct content_mutation_methods_return_Delta as (_ & _ & H).
  apply (H (fun _ _ => false) "setText" [VStr "a"] Delta).
  - unfold content_mutation_methods.
    do 4 apply list_elem_of_further. apply list_elem_of_here.
  - vm_compute; reflexivity.
Defined.

(** ** Importing the module *)

Section LoaderFacts.
Context {V E : Type}.
Variable resolver : string → Loading E V.
Variable reference_error : string → E.

(** Importing [quill.ts] is loading ['./core'] and binding its default
    export: same registry, same error. *)
Lemma import_quill_ts reg :
  import_file resolver reference_error quill_ts reg
  = match resolver "./core" reg with
    | Loaded Q reg' => Loaded (Scope (<["Quill" := Q]> ∅) (Some Q)) reg'
    | Failed e => Failed e
    end.
Proof.
  unfold import_file. cbn [emit quill_ts declaration_file items flat_map emit_decl app exec].
  unfold bind. destruct (resolver "./core" reg) as [Q reg'|e]; [|reflexivity].
  cbn [bindings default]. rewrite lookup_insert_eq. reflexivity.
Qed.

Lemma import_default_quill_ts reg :
  import_default resolver reference_error quill_ts reg
  = match resolver "./core" reg with
    | Loaded Q reg' => Loaded (Some Q) reg'
    | Failed e => Failed e
    end.
Proof.
  unfold import_default, bind. rewrite import_quill_ts.
  destruct (resolver "./core" reg); reflexivity.
Qed.

Lemma import_default_upstream formats reg :
  import_default resolver reference_error (upstream_quill_ts formats) reg
  = match resolver "./core" reg with
    | Loaded Q reg' => Loaded (Some Q) (reg' ∪ list_to_set formats)
    | Failed e => Failed e
    end.
Proof.
  unfold import_default, import_file.
  cbn [emit upstream_quill_ts declaration_file items flat_map emit_decl app exec].
  unfold bind. destruct (resolver "./core" reg) as [Q reg'|e]; [|reflexivity].
  cbn [bindings default]. rewrite lookup_insert_eq.
  reflexivity.
Qed.

(** A type-only export compiles to nothing. *)
Lemma type_only_erased d : type_only d = true → emit_decl d = [].
Proof. destruct d; (discriminate || reflexivity). Qed.

(** Erasure does not see the type-only exports of a file. *)
Lemma emit_without_types f :
  emit (SourceFile (declaration_file f)
          (List.filter (fun d => negb (type_only d)) (items f)))
  = emit f.
Proof.
  unfold emit. cbn [declaration_file items].
  destruct (declaration_file f); [reflexivity|].
  induction (items f) as [|d ds IH]; [reflexivity|].
  destruct d; cbn [List.filter type_only negb flat_map emit_decl app];
    rewrite ?IH; reflexivity.
Qed.

End LoaderFacts.

(** C4: importing the module fails exactly when loading ['./core'] fails,
    and with that same error: every load-time error of the wrapped
    library comes out unchanged, and the module raises none of its own
    and turns none into success or into another error. The type
    declarations never fail. *)
Theorem import_propagates_core_errors_unchanged :
  ∀ (V E : Type) (resolver : string → Loading E V)
    (reference_error : string → E) (reg : gset string),
    (∀ e, resolver "./core" reg = Failed e
          ↔ import_file resolver reference_error quill_ts reg = Failed e)
    ∧ (∀ e, resolver "./core" reg = Failed e
            ↔ import_default resolver reference_error quill_ts reg = Failed e)
    ∧ (∀ e, import_file resolver reference_error quill_d_ts reg ≠ Failed e).
Proof.
  intros V E resolver reference_error reg. split; [|split].
  - intros e. rewrite import_quill_ts.
    destruct (resolver "./core" reg); split; congruence.
  - intros e. rewrite import_default_quill_ts.
    destruct (resolver "./core" reg); split; congruence.
  - intros e. cbv. discriminate.
Qed.

(** C2: the type-only exports of the declarations are the sixteen type
    aliases and interfaces listed; each compiles to no statement; the whole
    declaration file, its two body-less classes included, compiles to no
    statement, so importing it succeeds with an empty scope and the
    registry as it was; and in any source file, dropping the type-only
    exports leaves the compiled statements as they are. *)
Theorem type_exports_leave_no_runtime_footprint :
  omap exported_name (List.filter type_only (items quill_d_ts))
    = ["DeltaOperation"; "Sources"; "Key"; "StringMap"; "OptionalAttributes";
       "TextChangeHandler"; "SelectionChangeHandler"; "EditorChangeHandler";
       "KeyboardStatic"; "ClipboardMatcherCallback"; "ClipboardMatcherNode";
       "ClipboardStatic"; "QuillOptionsStatic"; "BoundsStatic"; "RangeStatic";
       "EventEmitter"]
  ∧ Forall (fun d => emit_decl d = []) (List.filter type_only (items quill_d_ts))
  ∧ emit quill_d_ts = []
  ∧ (∀ (V E : Type) (resolver : string → Loading E V)
       (reference_error : string → E) (reg : gset string),
       import_file resolver reference_error quill_d_ts reg = Loaded empty_scope reg)
  ∧ (∀ f : source_file,
       emit (SourceFile (declaration_file f)
               (List.filter (fun d => negb (type_only d)) (items f)))
       = emit f).
Proof.
  split; [reflexivity|]. split.
  { apply List.Forall_forall. intros d Hd. apply List.filter_In in Hd.
    apply type_only_erased, Hd. }
  split; [reflexivity|]. split; [reflexivity|]. exact emit_without_types.
Qed.

(** C1: the default export of the module is the constructor that
    ['./core'] exports, with the registry as ['./core'] left it and the
    same failures; the upstream entry file exports that same constructor
    and differs only by the formatting modules it registers. With
    ['./core'] registering no formatting module (as the spec has it), no
    formatting module is registered after the import, and a format that
    the consumer has not registered afterwards has no effect when used,
    while upstream's own formats do take effect. *)
Theorem default_export_is_core_with_no_formats :
  ∀ (V E Doc : Type) (resolver : string → Loading E V)
    (reference_error : string → E) (formats : list string),
    (∀ reg Q reg', resolver "./core" reg = Loaded Q reg' → reg' = reg) →
    (∀ reg,
       import_default resolver reference_error quill_ts reg
       = match resolver "./core" reg with
         | Loaded Q reg' => Loaded (Some Q) reg'
         | Failed e => Failed e
         end)
    ∧ (∀ reg,
         import_default resolver reference_error (upstream_quill_ts formats) reg
         = match import_default resolver reference_error quill_ts reg with
           | Loaded Q reg' => Loaded Q (reg' ∪ list_to_set formats)
           | Failed e => Failed e
           end)
    ∧ (∀ Q reg',
         import_default resolver reference_error quill_ts ∅ = Loaded Q reg' →
         reg' = ∅)
    ∧ (∀ Q reg' registered reg'' name (effect : Doc → Doc) doc,
         import_default resolver reference_error quill_ts ∅ = Loaded Q reg' →
         register (E := E) registered reg' = Loaded tt reg'' →
         name ∉ registered →
         use_format reg'' name effect doc = doc)
    ∧ (∀ Q reg' name (effect : Doc → Doc) doc,
         import_default resolver reference_error (upstream_quill_ts formats) ∅
           = Loaded Q reg' →
         name ∈ formats →
         use_format reg' name effect doc = effect doc).
Proof.
  intros V E Doc resolver reference_error formats Hcore.
  assert (Hempty : ∀ Q reg',
             import_default resolver reference_error quill_ts ∅ = Loaded Q reg' →
             reg' = ∅).
  { intros Q reg'. rewrite import_default_quill_ts.
    destruct (resolver "./core" ∅) as [Q0 reg0|e] eqn:Hload; [|discriminate].
    intros [= _ <-]. exact (Hcore _ _ _ Hload). }
  split; [exact (import_default_quill_ts resolver reference_error)|].
  split; [|split; [exact Hempty|split]].
  - intros reg. rewrite import_default_upstream, import_default_quill_ts.
    destruct (resolver "./core" reg); reflexivity.
  - intros Q reg' registered reg'' name effect doc Himport Hreg Hname.
    apply Hempty in Himport. subst reg'.
    unfold register in Hreg. injection Hreg as <-.
    unfold use_format. destruct (decide (name ∈ ∅ ∪ list_to_set registered)) as [Hin|];
      [|reflexivity].
    exfalso. apply Hname.
    apply elem_of_union in Hin. destruct Hin as [Hin|Hin].
    + by apply not_elem_of_empty in Hin.
    + by apply elem_of_list_to_set in Hin.
  - intros Q reg' name effect doc Himport Hname.
    rewrite import_default_upstream in Himport.
    destruct (resolver "./core" ∅) as [Q0 reg0|e]; [|discriminate].
    injection Himport as _ <-.
    unfold use_format. destruct (decide (name ∈ reg0 ∪ list_to_set formats)) as [|Hout];
      [reflexivity|].
    exfalso. apply Hout. apply elem_of_union. right. by apply elem_of_list_to_set.
Qed.

(** C1 at a ['./core'] that exports constructor [0] and registers nothing:
    after the consumer registers bold alone, italic has no effect. *)
Lemma default_export_is_core_with_no_formats_witness :
  use_format (∅ ∪ list_to_set ["formats/bold"]) "formats/italic" S 0 = 0.
Proof.
  destruct (default_export_is_core_with_no_formats nat string nat
              (fun _ reg => Loaded 0 reg) (fun x => x)
              ["formats/bold"; "formats/italic"])
    as (_ & _ & _ & Hunused & _).
  - intros reg Q reg' [= _ <-]. reflexivity.
  - apply (Hunused (Some 0) ∅ ["formats/bold"]).
    + rewrite import_default_quill_ts. reflexivity.
    + reflexivity.
    + intros Hin. apply list_elem_of_singleton in Hin. discriminate Hin.
Defined.

(** * Further properties of the declarations *)

(** ** Telling signatures apart *)

Module Overload.
Import Js Ts Decls.

(** What a value looks like from outside: its kind, and for a boolean or a
    string the value itself when it is known ([None]: any). *)
Inductive head : Type :=
| HUndef
| HNull
| HBool (b : option bool)
| HNum
| HStr (s : option string)
| HArr
| HObj
| HFun.

Definition head_of (v : value) : head :=
  match v with
  | VUndefined => HUndef
  | VNull => HNull
  | VBool b => HBool (Some b)
  | VNum _ => HNum
  | VStr s => HStr (Some s)
  | VArr _ => HArr
  | VObj _ => HObj
  | VFun _ => HFun
  end.

(** Two heads that one value can have. *)
Definition overlap (a b : head) : bool :=
  match a, b with
  | HUndef, HUndef | HNull, HNull | HNum, HNum
  | HArr, HArr | HObj, HObj | HFun, HFun => true
  | HBool (Some x), HBool (Some y) => Bool.eqb x y
  | HBool _, HBool _ => true
  | HStr (Some x), HStr (Some y) => String.eqb x y
  | HStr _, HStr _ => true
  | _, _ => false
  end.

(** The heads of the values of a type that is not a union; [None] when
    the type tells nothing ([any], a named type). An object type may
    hold an object, an array or a function. *)
Definition atom_heads (t : ty) : option (list head) :=
  match t with
  | TAny | TName _ | TUnion _ | TInter _ => None
  | TVoid => Some [HUndef]
  | TNull => Some [HNull]
  | TNumber => Some [HNum]
  | TString => Some [HStr None]
  | TBoolean => Some [HBool None]
  | TStrLit s => Some [HStr (Some s)]
  | TBoolLit b => Some [HBool (Some b)]
  | TArray _ | TTuple _ => Some [HArr]
  | TObject _ => Some [HObj; HArr; HFun]
  | TFunction _ _ => Some [HFun]
  end.

Fixpoint union_heads (ts : list ty) : option (list head) :=
  match ts with
  | [] => Some []
  | t :: ts' =>
      match atom_heads t, union_heads ts' with
      | Some a, Some b => Some (a ++ b)%list
      | _, _ => None
      end
  end.

Definition heads (t : ty) : option (list head) :=
  match t with
  | TUnion ts => union_heads ts
  | _ => atom_heads t
  end.

(** The heads of the arguments a parameter takes. *)
Definition param_heads (p : param) : option (list head) :=
  match heads (ptype p) with
  | Some hs => Some (if poptional p then HUndef :: hs else hs)
  | None => None
  end.

(** No value is an argument for both parameters. *)
Definition clash (p q : param) : bool :=
  match param_heads p, param_heads q with
  | Some a, Some b => forallb (fun x => forallb (fun y => negb (overlap x y)) b) a
  | _, _ => false
  end.

(** The least number of arguments a parameter list takes. *)
Fixpoint min_args (ps : list param) : nat :=
  match ps with
  | [] => 0
  | p :: ps' =>
      match min_args ps' with
      | 0 => if poptional p then 0 else 1
      | S n => S (S n)
      end
  end.

(** Some position holds clashing parameters, one of them required. *)
Fixpoint position_clash (ps qs : list param) : bool :=
  match ps, qs with
  | p :: ps', q :: qs' =>
      ((negb (poptional p) || negb (poptional q)) && clash p q)
      || position_clash ps' qs'
  | _, _ => false
  end.

(** Two parameter lists that no argument list satisfies together: by
    the number of arguments, or by a position. *)
Definition exclusive (ps qs : list param) : bool :=
  Nat.ltb (length ps) (min_args qs) || Nat.ltb (length qs) (min_args ps)
  || position_clash ps qs.

(** The methods of one name are pairwise exclusive. *)
Fixpoint unambiguous (ms : list member) : bool :=
  match ms with
  | [] => true
  | Method n ps _ :: rest =>
      forallb (fun m =>
                 match m with
                 | Method n' ps' _ => negb (String.eqb n' n) || exclusive ps ps'
                 | _ => true
                 end) rest
      && unambiguous rest
  | _ :: rest => unambiguous rest
  end.

(** The signatures of [sigs] that accept the arguments. *)
Definition applicable (named : string → value → bool)
    (sigs : list (list param * ty)) (args : list value) : list (list param * ty) :=
  List.filter (fun sig => accepts named (fst sig) args) sigs.

(** The static side of a class: its static methods, seen as methods; and
    its constructor, seen as the method [new] that returns an instance. *)
Definition static_side (ms : list member) : list member :=
  omap (fun m =>
          match m with
          | StaticMethod n ps r => Some (Method n ps r)
          | Constructor ps => Some (Method "new" ps (TObject ms))
          | _ => None
          end) ms.

(** The interfaces of the declarations that have methods. *)
Definition declared_interfaces : list (list member) :=
  [members_of Quill;
   static_side (members_of Quill);
   members_of KeyboardStatic;
   members_of ClipboardStatic;
   members_of EventEmitter].

(** [t] is the type [Sources]. *)
Definition is_Sources (t : ty) : bool :=
  match t with
  | TUnion [TStrLit a; TStrLit b; TStrLit c] =>
      String.eqb a "api" && String.eqb b "user" && String.eqb c "silent"
  | _ => false
  end.

(** Every parameter named [source] is the last one, optional and of type
    [Sources]. *)
Fixpoint source_ok (ps : list param) : bool :=
  match ps with
  | [] => true
  | p :: ps' =>
      (if String.eqb (pname p) "source"
       then match ps' with [] => true | _ => false end
            && poptional p && is_Sources (ptype p)
       else true)
      && source_ok ps'
  end.

Definition sources_ok (ms : list member) : bool :=
  forallb (fun m => match m with Method _ ps _ => source_ok ps | _ => true end) ms.

(** A stand-in instance of an interface: a function under the name of
    every method and [filler] under the name of every property. *)
Definition stub (filler : value) (ms : list member) : value :=
  VObj (omap (fun m =>
                match m with
                | Method n _ _ => Some (n, VFun 0)
                | Property n _ _ => Some (n, filler)
                | _ => None
                end) ms).

(** The object is empty, or has a field under one of the keys. *)
Definition empty_or_carries (ks : list string) (fs : list (string * value)) : bool :=
  match fs with
  | [] => true
  | _ => existsb (fun k => carries k fs) ks
  end.

End Overload.

Import Overload.

Section OverloadFacts.
Variable named : string → value → bool.

Lemma overlap_head_of a b v :
  overlap a (head_of v) = true → overlap b (head_of v) = true → overlap a b = true.
Proof.
  destruct v as [| |c|n|s| | |];
    destruct a as [| |[x|]| |[x|]| | |]; destruct b as [| |[y|]| |[y|]| | |];
    cbn; try discriminate; auto; intros Ha Hb.
  - apply Bool.eqb_prop in Ha, Hb. subst. apply Bool.eqb_reflx.
  - apply String.eqb_eq in Ha, Hb. subst. apply String.eqb_refl.
Qed.

Lemma atom_heads_sound t v hs :
  atom_heads t = Some hs → has_type named t v = true →
  existsb (fun h => overlap h (head_of v)) hs = true.
Proof.
  destruct t; cbn [atom_heads]; try discriminate; intros [= <-];
    destruct v; cbn; try discriminate; try reflexivity.
  - intros ->. reflexivity.
  - destruct b, b0; cbn; congruence.
Qed.

Lemma union_heads_sound ts v hs :
  union_heads ts = Some hs →
  existsb (fun t => has_type named t v) ts = true →
  existsb (fun h => overlap h (head_of v)) hs = true.
Proof.
  revert hs. induction ts as [|t ts IH]; intros hs; cbn [union_heads existsb];
    [discriminate|].
  destruct (atom_heads t) as [a|] eqn:Ha; [|discriminate].
  destruct (union_heads ts) as [b|]; [|discriminate].
  intros [= <-]. rewrite existsb_app.
  intros [Ht|Hts]%orb_true_iff.
  - rewrite (atom_heads_sound _ _ _ Ha Ht). reflexivity.
  - rewrite (IH b eq_refl Hts). apply orb_true_r.
Qed.

Lemma heads_sound t v hs :
  heads t = Some hs → has_type named t v = true →
  existsb (fun h => overlap h (head_of v)) hs = true.
Proof.
  destruct t; try apply atom_heads_sound.
  cbn [heads has_type]. apply union_heads_sound.
Qed.

Lemma param_heads_sound p v hs :
  param_heads p = Some hs → arg_ok named p v = true →
  existsb (fun h => overlap h (head_of v)) hs = true.
Proof.
  unfold param_heads, arg_ok.
  destruct (heads (ptype p)) as [hs'|] eqn:Hh; [|discriminate].
  intros [= <-] [Ht|[Ho Hu]%andb_true_iff]%orb_true_iff.
  - pose proof (heads_sound _ _ _ Hh Ht) as H.
    destruct (poptional p); [cbn [existsb]; rewrite H; apply orb_true_r | exact H].
  - rewrite Ho. destruct v; try discriminate. reflexivity.
Qed.

Lemma clash_sound p q v :
  clash p q = true → arg_ok named p v = true → arg_ok named q v = true → False.
Proof.
  unfold clash.
  destruct (param_heads p) as [a|] eqn:Hp; [|discriminate].
  destruct (param_heads q) as [b|] eqn:Hq; [|discriminate].
  intros Hclash Hpv Hqv.
  apply (param_heads_sound _ _ _ Hp) in Hpv. apply (param_heads_sound _ _ _ Hq) in Hqv.
  apply List.existsb_exists in Hpv. destruct Hpv as (x & Hx & Hxv).
  apply List.existsb_exists in Hqv. destruct Hqv as (y & Hy & Hyv).
  rewrite List.forallb_forall in Hclash. specialize (Hclash x Hx).
  rewrite List.forallb_forall in Hclash. specialize (Hclash y Hy).
  rewrite (overlap_head_of _ _ _ Hxv Hyv) in Hclash. discriminate.
Qed.

Lemma accepts_nil_min ps : accepts named ps [] = true → min_args ps = 0.
Proof.
  induction ps as [|p ps IH]; [reflexivity|]. cbn [accepts min_args].
  intros [Ho Hps]%andb_true_iff. rewrite (IH Hps), Ho. reflexivity.
Qed.

Lemma accepts_arity ps args :
  accepts named ps args = true →
  (min_args ps ≤ length args ∧ length args ≤ length ps)%nat.
Proof.
  revert args. induction ps as [|p ps IH]; intros [|a args] H.
  - cbn. lia.
  - discriminate.
  - rewrite (accepts_nil_min _ H). cbn. lia.
  - cbn [accepts] in H. apply andb_true_iff in H. destruct H as [_ H].
    destruct (IH _ H) as [Hmin Hmax]. cbn [min_args length].
    destruct (min_args ps); [destruct (poptional p)|]; lia.
Qed.

Lemma position_clash_sound ps qs args :
  position_clash ps qs = true →
  accepts named ps args = true → accepts named qs args = true → False.
Proof.
  revert qs args. induction ps as [|p ps IH]; intros [|q qs] args; cbn [position_clash];
    try discriminate.
  intros [[Hreq Hc]%andb_true_iff|Hrest]%orb_true_iff Hp Hq.
  - destruct args as [|a args]; cbn [accepts] in Hp, Hq;
      apply andb_true_iff in Hp; apply andb_true_iff in Hq;
      destruct Hp as [Hp _], Hq as [Hq _].
    + rewrite Hp, Hq in Hreq. discriminate.
    + exact (clash_sound _ _ _ Hc Hp Hq).
  - destruct args as [|a args]; cbn [accepts] in Hp, Hq;
      apply andb_true_iff in Hp; apply andb_true_iff in Hq;
      destruct Hp as [_ Hp], Hq as [_ Hq]; exact (IH _ _ Hrest Hp Hq).
Qed.

Lemma exclusive_sound ps qs args :
  exclusive ps qs = true →
  accepts named ps args = true → accepts named qs args = true → False.
Proof.
  unfold exclusive.
  intros [[Hl|Hl]%orb_true_iff|Hc]%orb_true_iff Hp Hq.
  - apply Nat.ltb_lt in Hl.
    apply accepts_arity in Hp. apply accepts_arity in Hq. lia.
  - apply Nat.ltb_lt in Hl.
    apply accepts_arity in Hp. apply accepts_arity in Hq. lia.
  - exact (position_clash_sound _ _ _ Hc Hp Hq).
Qed.

(** Among unambiguous members, the signatures of a name that accept the
    arguments are one at most. *)
Lemma unambiguous_sound ms m args :
  unambiguous ms = true →
  (length (applicable named (overloads m ms) args) ≤ 1)%nat.
Proof.
  unfold applicable. induction ms as [|mem ms IH]; [cbn; lia|].
  destruct mem as [k o t|n ps r|n ps r|ps|t]; cbn [unambiguous];
    try (intros H; exact (IH H)).
  intros [Hrest Hms]%andb_true_iff. specialize (IH Hms).
  unfold overloads in *. cbn [omap list_omap].
  destruct (String.eqb n m) eqn:Hn; [|exact IH].
  cbn [List.filter fst]. destruct (accepts named ps args) eqn:Hps; [|exact IH].
  enough (Hnone : List.filter (fun sig => accepts named (fst sig) args)
                    (omap (fun m0 => match m0 with
                                     | Method n0 ps0 r0 =>
                                         if String.eqb n0 m then Some (ps0, r0) else None
                                     | _ => None
                                     end) ms) = []).
  { rewrite Hnone. cbn. lia. }
  apply String.eqb_eq in Hn. subst n.
  clear IH Hms. induction ms as [|mem ms IH]; [reflexivity|].
  cbn [forallb] in Hrest. apply andb_true_iff in Hrest. destruct Hrest as [Hmem Hrest].
  specialize (IH Hrest). cbn [omap list_omap].
  destruct mem as [k o t|n' ps' r'|n' ps' r'|ps'|t]; try exact IH.
  destruct (String.eqb n' m) eqn:Hn'; [|exact IH].
  cbn [negb orb] in Hmem. cbn [List.filter fst].
  destruct (accepts named ps' args) eqn:Hps'; [|exact IH].
  exfalso. exact (exclusive_sound _ _ _ Hmem Hps Hps').
Qed.

End OverloadFacts.

Section ResolutionFacts.
Variable named : string → value → bool.

Lemma resolve_applicable sigs args :
  resolve named sigs args = snd <$> hd_error (applicable named sigs args).
Proof.
  unfold applicable. induction sigs as [|[ps r] sigs IH]; [reflexivity|].
  cbn [resolve List.filter fst]. destruct (accepts named ps args); [reflexivity|exact IH].
Qed.

Lemma filter_Permutation_bool {A : Type} (f : A → bool) (l l' : list A) :
  l ≡ₚ l' → List.filter f l ≡ₚ List.filter f l'.
Proof.
  induction 1 as [|x l l' _ IH|x y l|l l' l'' _ IH1 _ IH2]; cbn [List.filter].
  - reflexivity.
  - destruct (f x); [by apply Permutation_skip|exact IH].
  - destruct (f x), (f y); try reflexivity. apply Permutation_swap.
  - by etransitivity.
Qed.

Lemma Permutation_short {A : Type} (l l' : list A) :
  l ≡ₚ l' → (length l ≤ 1)%nat → l = l'.
Proof.
  intros Hperm Hlen. destruct l as [|x [|y l]]; [| |cbn in Hlen; lia].
  - by apply Permutation_nil_l in Hperm.
  - by apply Permutation_singleton_l in Hperm.
Qed.

(** Among unambiguous members the order of declaration does not matter
    to the resolution of a call. *)
Lemma unambiguous_order ms ms' m args :
  unambiguous ms = true → ms' ≡ₚ ms →
  call named ms' m args = call named ms m args.
Proof.
  intros Hms Hperm. unfold call. rewrite !resolve_applicable.
  f_equal. f_equal. symmetry. apply Permutation_short.
  - unfold applicable. apply filter_Permutation_bool.
    unfold overloads. by rewrite Hperm.
  - by apply unambiguous_sound.
Qed.

Lemma overloads_elem ms m ps r :
  (ps, r) ∈ overloads m ms → Method m ps r ∈ ms.
Proof.
  unfold overloads. intros (mem & Hmem & Hsig)%list_elem_of_omap.
  destruct mem as [| n ps' r' | | |]; try discriminate.
  destruct (String.eqb n m) eqn:Hn; [|discriminate].
  apply String.eqb_eq in Hn. by simplify_eq.
Qed.

(** A signature of the name that accepts the arguments gives the result
    of the call, when the members are unambiguous. *)
Lemma unambiguous_call ms m ps r args :
  unambiguous ms = true →
  (ps, r) ∈ overloads m ms → accepts named ps args = true →
  call named ms m args = Some r.
Proof.
  intros Hms Hin Hacc. unfold call. rewrite resolve_applicable.
  pose proof (unambiguous_sound named ms m args Hms) as Hone.
  assert (Happ : (ps, r) ∈ applicable named (overloads m ms) args).
  { unfold applicable. apply list_elem_of_In, List.filter_In.
    split; [by apply list_elem_of_In | exact Hacc]. }
  destruct (applicable named (overloads m ms) args) as [|sig [|sig' l]].
  - by apply elem_of_nil in Happ.
  - apply list_elem_of_singleton in Happ. by subst sig.
  - cbn in Hone. lia.
Qed.

(** The argument at a parameter's position fits the parameter; a missing
    argument reads as [undefined]. *)
Lemma accepts_argument ps args i p :
  accepts named ps args = true → ps !! i = Some p →
  arg_ok named p (argument i args) = true.
Proof.
  revert args i. induction ps as [|q ps IH]; intros args i Hacc Hi; [discriminate|].
  destruct args as [|a args]; cbn [accepts] in Hacc;
    apply andb_true_iff in Hacc; destruct Hacc as [Hq Hps].
  - destruct i as [|i]; cbn in Hi.
    + injection Hi as <-. unfold arg_ok, argument. cbn. rewrite Hq. apply orb_true_r.
    + specialize (IH [] i Hps Hi). unfold argument in *. by destruct i.
  - destruct i as [|i]; cbn in Hi.
    + injection Hi as <-. exact Hq.
    + exact (IH args i Hps Hi).
Qed.

(** An optional last parameter can go without its argument. *)
Lemma accepts_without_last ps p args a :
  poptional p = true → length args = length ps →
  accepts named (ps ++ [p]) (args ++ [a]) = true →
  accepts named (ps ++ [p]) args = true.
Proof.
  intros Hopt. revert args. induction ps as [|q ps IH]; intros [|b args] Hlen;
    try discriminate; cbn [app accepts].
  - intros _. rewrite Hopt. reflexivity.
  - intros [Hq Hrest]%andb_true_iff. rewrite Hq. cbn [andb].
    apply IH; [by injection Hlen | exact Hrest].
Qed.

(** Member-wise inclusion of object types carries over to their values,
    when the smaller type is not weak. *)
Lemma members_subsumed ms ms' v :
  ms' ⊆ ms → weak (TObject ms') = false →
  has_type named (TObject ms) v = true → has_type named (TObject ms') v = true.
Proof.
  intros Hsub Hweak.
  assert (Hall : ∀ f : member → bool, forallb f ms = true → forallb f ms' = true).
  { intros f. rewrite !List.forallb_forall. intros H m Hm.
    apply H, list_elem_of_In, Hsub, list_elem_of_In, Hm. }
  destruct v; cbn [has_type]; try discriminate.
  - intros [Hms _]%andb_true_iff. by rewrite (Hall _ Hms), Hweak.
  - intros [Hms _]%andb_true_iff.
    by rewrite (Hall _ Hms), (common_property_strong _ _ Hweak).
  - intros [Hms _]%andb_true_iff. by rewrite (Hall _ Hms), Hweak.
Qed.

End ResolutionFacts.

Section DeclaredFacts.
Variable named : string → value → bool.

Lemma declared_unambiguous ms :
  ms ∈ declared_interfaces → unambiguous ms = true ∧ sources_ok ms = true.
Proof.
  unfold declared_interfaces. rewrite !elem_of_cons, elem_of_nil.
  intros [->|[->|[->|[->|[->|[]]]]]]; split; vm_compute; reflexivity.
Qed.

Lemma is_Sources_eq t : is_Sources t = true → t = Sources.
Proof.
  destruct t as [| | | | | | | | | | |[|[] [|[] [|[] []]]]| | |]; try discriminate.
  cbn [is_Sources]. intros [[Ha Hb]%andb_true_iff Hc]%andb_true_iff.
  apply String.eqb_eq in Ha, Hb, Hc. by subst.
Qed.

Lemma Sources_values v :
  has_type named Sources v = true ↔
  v = VStr "api" ∨ v = VStr "user" ∨ v = VStr "silent".
Proof.
  destruct v as [| | | |s| | |];
    try (split; [discriminate | intros [|[|]]; discriminate]).
  cbn [Sources has_type existsb]. rewrite !orb_true_iff, !String.eqb_eq.
  split.
  - intros [<-|[<-|[<-|[=]]]]; auto.
  - intros [[= ->]|[[= ->]|[= ->]]]; auto.
Qed.

Lemma source_ok_lookup ps i p :
  source_ok ps = true → ps !! i = Some p → pname p = "source" →
  poptional p = true ∧ ptype p = Sources ∧ S i = length ps.
Proof.
  revert i. induction ps as [|q ps IH]; intros i Hok Hi Hname; [discriminate|].
  cbn [source_ok] in Hok. apply andb_true_iff in Hok. destruct Hok as [Hq Hps].
  destruct i as [|i]; cbn in Hi.
  - injection Hi as ->. rewrite Hname in Hq. cbn in Hq.
    apply andb_true_iff in Hq. destruct Hq as [[Hlast Hopt]%andb_true_iff Hty].
    destruct ps; [|discriminate]. auto using is_Sources_eq.
  - destruct (IH i Hps Hi Hname) as (? & ? & Hlen). cbn [length]. auto.
Qed.

Lemma sources_ok_overload ms m ps r :
  sources_ok ms = true → (ps, r) ∈ overloads m ms → source_ok ps = true.
Proof.
  intros Hok Hin%overloads_elem. unfold sources_ok in Hok.
  rewrite List.forallb_forall in Hok.
  exact (Hok _ (proj1 (list_elem_of_In _ _) Hin)).
Qed.

End DeclaredFacts.

(** ** Calls on the declared interfaces *)

(** X1: on every interface of the declarations (the editor class, its
    static side, the keyboard and clipboard helpers, the event emitter)
    and for every method name and argument list, at most one of the
    method's declared signatures accepts the arguments. *)
Theorem overloads_never_overlap :
  ∀ named ms m args,
    ms ∈ declared_interfaces →
    (length (applicable named (overloads m ms) args) ≤ 1)%nat.
Proof.
  intros named ms m args Hms.
  apply unambiguous_sound. by apply declared_unambiguous.
Qed.

(** X1 at [formatText(0, 1, "api")], which only the first of the five
    signatures accepts. *)
Lemma overloads_never_overlap_witness :
  (length (applicable (fun _ _ => false) (overloads "formatText" (members_of Quill))
             [VNum 0; VNum 1; VStr "api"]) ≤ 1)%nat.
Proof.
  apply overloads_never_overlap. apply list_elem_of_here.
Defined.

(** X2: the order in which an interface declares its members does not
    matter to the result of any call: under every reordering of the
    members, each call resolves to the same result type, or fails to
    resolve, as before. *)
Theorem resolution_ignores_declaration_order :
  ∀ named ms ms' m args,
    ms ∈ declared_interfaces → ms' ≡ₚ ms →
    call named ms' m args = call named ms m args.
Proof.
  intros named ms ms' m args Hms Hperm.
  apply unambiguous_order; [by apply declared_unambiguous | exact Hperm].
Qed.

(** X2 at the members of the editor class in reverse order. *)
Lemma resolution_ignores_declaration_order_witness :
  call (fun _ _ => false) (reverse (members_of Quill)) "getSelection" [VBool false]
  = call (fun _ _ => false) (members_of Quill) "getSelection" [VBool false].
Proof.
  apply resolution_ignores_declaration_order.
  - apply list_elem_of_here.
  - apply reverse_Permutation.
Defined.

(** X3: where a signature of a declared method ends in the parameter
    [source], a call that it accepts with [source] passed is a call that
    resolves to the same result type with [source] left out. *)
Theorem source_can_be_left_out :
  ∀ named ms m ps r args s,
    ms ∈ declared_interfaces →
    (ps, r) ∈ overloads m ms →
    pname <$> last ps = Some "source" →
    length ps = S (length args) →
    accepts named ps (args ++ [s]) = true →
    call named ms m (args ++ [s]) = Some r ∧ call named ms m args = Some r.
Proof.
  intros named ms m ps r args s Hms Hin Hlast Hlen Hacc.
  destruct (declared_unambiguous ms Hms) as [Hun Hsrc].
  split; [by apply (unambiguous_call named ms m ps r)|].
  apply (unambiguous_call named ms m ps r); [exact Hun | exact Hin |].
  destruct (last ps) as [p|] eqn:Hp; [|discriminate]. injection Hlast as Hname.
  pose proof (sources_ok_overload _ _ _ _ Hsrc Hin) as Hok.
  apply last_Some in Hp. destruct Hp as [ps0 ->].
  assert (Hi : ((ps0 ++ [p])%list : list param) !! length ps0 = Some p)
    by apply list_lookup_middle, eq_refl.
  destruct (source_ok_lookup _ _ _ Hok Hi Hname) as (Hopt & _ & _).
  apply (accepts_without_last named ps0 p args s Hopt); [|exact Hacc].
  rewrite length_app in Hlen. cbn in Hlen. unfold param in *. lia.
Qed.

(** X3 at [setText("a", "user")] and [setText("a")]. *)
Lemma source_can_be_left_out_witness :
  call (fun _ _ => false) (members_of Quill) "setText" ([VStr "a"] ++ [VStr "user"])
    = Some Delta
  ∧ call (fun _ _ => false) (members_of Quill) "setText" [VStr "a"] = Some Delta.
Proof.
  apply (source_can_be_left_out (fun _ _ => false) (members_of Quill) "setText"
           [arg "text" TString; arg_opt "source" Sources]).
  - apply list_elem_of_here.
  - vm_compute. apply list_elem_of_here.
  - reflexivity.
  - reflexivity.
  - reflexivity.
Defined.

(** X4: whatever declared method takes a parameter named [source], in a
    call that one of its signatures accepts the argument at that place is
    missing or [undefined], or one of the strings ["api"], ["user"] and
    ["silent"]. *)
Theorem source_argument_values :
  ∀ named ms m ps r args i p,
    ms ∈ declared_interfaces →
    (ps, r) ∈ overloads m ms →
    accepts named ps args = true →
    ps !! i = Some p → pname p = "source" →
    argument i args ∈ [VUndefined; VStr "api"; VStr "user"; VStr "silent"].
Proof.
  intros named ms m ps r args i p Hms Hin Hacc Hi Hname.
  destruct (declared_unambiguous ms Hms) as [_ Hsrc].
  pose proof (sources_ok_overload _ _ _ _ Hsrc Hin) as Hok.
  destruct (source_ok_lookup _ _ _ Hok Hi Hname) as (_ & Hty & _).
  pose proof (accepts_argument named _ _ _ _ Hacc Hi) as Harg.
  unfold arg_ok in Harg. rewrite Hty in Harg.
  apply orb_true_iff in Harg. destruct Harg as [Hv|[_ Hu]%andb_true_iff].
  - apply Sources_values in Hv. rewrite !elem_of_cons. tauto.
  - destruct (argument i args); try discriminate. apply list_elem_of_here.
Qed.

(** X4 at [deleteText(0, 1, "silent")]. *)
Lemma source_argument_values_witness :
  argument 2 [VNum 0; VNum 1; VStr "silent"]
  ∈ [VUndefined; VStr "api"; VStr "user"; VStr "silent"].
Proof.
  apply (source_argument_values (fun _ _ => false) (members_of Quill) "deleteText"
           [arg "index" TNumber; arg "length" TNumber; arg_opt "source" Sources]
           Delta [VNum 0; VNum 1; VStr "silent"] 2 (arg_opt "source" Sources)).
  - apply list_elem_of_here.
  - vm_compute. apply list_elem_of_here.
  - reflexivity.
  - reflexivity.
  - reflexivity.
Defined.

Section CallFacts.
Variable named : string → value → bool.

(** A call that resolves is accepted by a signature of its result type. *)
Lemma call_accepted ms m args r :
  call named ms m args = Some r →
  ∃ ps, (ps, r) ∈ overloads m ms ∧ accepts named ps args = true.
Proof.
  unfold call. induction (overloads m ms) as [|[ps r'] sigs IH]; cbn [resolve];
    [discriminate|].
  destruct (accepts named ps args) eqn:Hacc.
  - intros [= <-]. exists ps. split; [apply list_elem_of_here | exact Hacc].
  - intros H. destruct (IH H) as (ps' & Hin & Hps'). exists ps'.
    split; [by apply list_elem_of_further | exact Hps'].
Qed.

Lemma required_argument p v :
  poptional p = false → arg_ok named p v = true → has_type named (ptype p) v = true.
Proof.
  unfold arg_ok. intros ->. cbn [andb]. by rewrite orb_false_r.
Qed.

Lemma function_value t v :
  (∃ ps r, t = TFunction ps r) → has_type named t v = true → ∃ f, v = VFun f.
Proof.
  intros (ps & r & ->). destruct v; try discriminate. eauto.
Qed.

(** Against a weak type, the common-property check is that the object is
    empty or has one of the type's properties; an object that has fields
    but none of them fails it. *)
Lemma common_property_weak t fs :
  weak t = true →
  common_property t fs = empty_or_carries (property_names (members_of t)) fs.
Proof. unfold common_property. intros ->. reflexivity. Qed.

Lemma common_property_foreign t fs :
  weak t = true → fs ≠ [] →
  Forall (fun k => get k fs = None) (property_names (members_of t)) →
  common_property t fs = false.
Proof.
  intros Hweak Hfs Hnone. rewrite (common_property_weak _ _ Hweak).
  destruct fs as [|kv fs]; [congruence|]. cbn [empty_or_carries].
  induction Hnone as [|k ks Hk _ IH]; [reflexivity|].
  cbn [existsb]. unfold carries at 1. rewrite Hk. exact IH.
Qed.

(** A [Key] is an object whose [key] is a string or a number and whose
    modifiers, where it carries them, are booleans. *)
Lemma Key_values v :
  has_type named Key v = true ↔
  ∃ fs, v = VObj fs
        ∧ (∃ k, get "key" fs = Some k ∧ ((∃ s, k = VStr s) ∨ (∃ n, k = VNum n)))
        ∧ field_fits named "shortKey" TBoolean fs = true
        ∧ field_fits named "ctrlKey" TBoolean fs = true
        ∧ field_fits named "shiftKey" TBoolean fs = true
        ∧ field_fits named "altKey" TBoolean fs = true.
Proof.
  destruct v as [| | | | | |fs|];
    try (split; [discriminate | intros (fs' & [=] & _)]).
  cbn [Key prop prop_opt has_type forallb existsb member_ok].
  rewrite common_property_strong by reflexivity. unfold field_fits.
  cbn [has_type andb]. rewrite !andb_true_r, !andb_true_iff. split.
  - intros (Hk & H1 & H2 & H3 & H4). exists fs. split; [reflexivity|].
    split; [|auto].
    destruct (get "key" fs) as [[| | | | | | |]|]; try discriminate; eauto 6.
  - intros (fs' & [= <-] & (k & -> & [[s ->]|[n ->]]) & H1 & H2 & H3 & H4); auto.
Qed.

End CallFacts.

(** X5: a call of [addBinding] that type-checks has two or three
    arguments; its first argument is a key binding, an object whose [key]
    is a string or a number and whose modifiers [shortKey], [ctrlKey],
    [shiftKey] and [altKey], where present, are booleans; its last
    argument is a function; and it returns nothing. *)
Theorem addBinding_takes_key_and_callback :
  ∀ named args r,
    call named (members_of KeyboardStatic) "addBinding" args = Some r →
    r = TVoid
    ∧ (length args = 2 ∨ length args = 3)
    ∧ (∃ fs, argument 0 args = VObj fs
             ∧ (∃ k, get "key" fs = Some k ∧ ((∃ s, k = VStr s) ∨ (∃ n, k = VNum n)))
             ∧ Forall (fun modifier => field_fits named modifier TBoolean fs = true)
                      ["shortKey"; "ctrlKey"; "shiftKey"; "altKey"])
    ∧ (∃ f, argument (length args - 1) args = VFun f).
Proof.
  intros named args r (ps & Hin & Hacc)%call_accepted.
  assert (Hkey : ∀ v, has_type named Key v = true →
            ∃ fs, v = VObj fs
                  ∧ (∃ k, get "key" fs = Some k ∧ ((∃ s, k = VStr s) ∨ (∃ n, k = VNum n)))
                  ∧ Forall (fun modifier => field_fits named modifier TBoolean fs = true)
                           ["shortKey"; "ctrlKey"; "shiftKey"; "altKey"]).
  { intros v (fs & -> & Hk & H1 & H2 & H3 & H4)%Key_values. exists fs.
    split; [reflexivity|]. split; [exact Hk|]. repeat constructor; assumption. }
  change (overloads "addBinding" (members_of KeyboardStatic))
    with [([arg "key" Key;
            arg "callback" (TFunction [arg "range" RangeStatic; arg "context" TAny] TVoid)],
           TVoid);
          ([arg "key" Key; arg "context" TAny;
            arg "callback" (TFunction [arg "range" RangeStatic; arg "context" TAny] TVoid)],
           TVoid)] in Hin.
  rewrite !elem_of_cons, elem_of_nil in Hin.
  destruct Hin as [[= -> ->]|[[= -> ->]|[]]].
  - pose proof (accepts_arity named _ _ Hacc) as [Hmin Hmax].
    cbn in Hmin, Hmax. assert (Hlen : length args = 2) by lia.
    split; [reflexivity|]. split; [auto|]. split.
    + apply Hkey. apply (required_argument named (arg "key" Key)); [reflexivity|].
      by apply (accepts_argument named _ _ 0 _ Hacc).
    + rewrite Hlen. cbn [Nat.sub].
      eapply function_value; [eauto|].
      apply (required_argument named (arg "callback" _)); [reflexivity|].
      by apply (accepts_argument named _ _ 1 _ Hacc).
  - pose proof (accepts_arity named _ _ Hacc) as [Hmin Hmax].
    cbn in Hmin, Hmax. assert (Hlen : length args = 3) by lia.
    split; [reflexivity|]. split; [auto|]. split.
    + apply Hkey. apply (required_argument named (arg "key" Key)); [reflexivity|].
      by apply (accepts_argument named _ _ 0 _ Hacc).
    + rewrite Hlen. cbn [Nat.sub].
      eapply function_value; [eauto|].
      apply (required_argument named (arg "callback" _)); [reflexivity|].
      by apply (accepts_argument named _ _ 2 _ Hacc).
Qed.

(** X5 at [addBinding({ key: "b", shortKey: true }, handler)]. *)
Lemma addBinding_takes_key_and_callback_witness :
  ∃ f, argument (length [VObj [("key", VStr "b"); ("shortKey", VBool true)]; VFun 7] - 1)
         [VObj [("key", VStr "b"); ("shortKey", VBool true)]; VFun 7] = VFun f.
Proof.
  destruct (addBinding_takes_key_and_callback (fun _ _ => false)
              [VObj [("key", VStr "b"); ("shortKey", VBool true)]; VFun 7] TVoid)
    as (_ & _ & _ & Hlast).
  - reflexivity.
  - exact Hlast.
Defined.

(** X6: [new Quill(...)] type-checks exactly when it has a container, a
    string or an [Element], and after it either nothing or one more
    argument that is [undefined] or an options bag; it then yields an
    instance of the class. An object that has fields but none of the
    declared options is no options bag: with it the call does not
    type-check. *)
Theorem constructor_requires_container :
  ∀ named args,
    (call named (static_side (members_of Quill)) "new" args = Some Quill
     ↔ ∃ c rest,
         args = c :: rest
         ∧ ((∃ s, c = VStr s) ∨ named "Element" c = true)
         ∧ (rest = []
            ∨ ∃ o, rest = [o]
                   ∧ (o = VUndefined ∨ has_type named QuillOptionsStatic o = true)))
    ∧ (∀ r, call named (static_side (members_of Quill)) "new" args = Some r → r = Quill)
    ∧ (∀ c fs,
         fs ≠ [] →
         Forall (fun k => get k fs = None)
                (property_names (members_of QuillOptionsStatic)) →
         call named (static_side (members_of Quill)) "new" [c; VObj fs] = None).
Proof.
  intros named args. unfold call.
  change (overloads "new" (static_side (members_of Quill)))
    with [([arg "container" (TUnion [TString; Element]);
            arg_opt "options" QuillOptionsStatic], Quill)].
  cbn [resolve].
  split; [|split].
  2: { destruct (accepts named _ args); [intros r [= <-]; reflexivity|discriminate]. }
  2: { intros c fs Hfs Hnone.
       assert (Hbag : has_type named QuillOptionsStatic (VObj fs) = false).
       { unfold QuillOptionsStatic. cbn [has_type].
         rewrite (common_property_foreign (TObject _) fs);
           [apply andb_false_r | reflexivity | exact Hfs | exact Hnone]. }
       cbn [accepts]. unfold arg_ok, arg, arg_opt.
       cbn [ptype poptional is_undefined andb]. rewrite Hbag. cbn [orb].
       rewrite !andb_false_r. reflexivity. }
  assert (Hc : ∀ c, has_type named (TUnion [TString; Element]) c = true
                    ↔ (∃ s, c = VStr s) ∨ named "Element" c = true).
  { intros c. cbn [has_type existsb Element]. rewrite orb_false_r, orb_true_iff.
    split; (intros [H|H]; [left|right; exact H]).
    - destruct c; try discriminate. eauto.
    - destruct H as [s ->]. reflexivity. }
  destruct args as [|c [|o [|x rest]]];
    cbn [accepts]; unfold arg_ok, arg, arg_opt; cbn [ptype poptional andb orb];
    rewrite ?orb_false_r, ?andb_true_r, ?andb_false_r.
  - split; [discriminate | intros (c & rest & [=] & _)].
  - destruct (has_type named (TUnion [TString; Element]) c) eqn:Hcv.
    + split; [|reflexivity]. intros _. exists c, []. split; [reflexivity|].
      split; [by apply Hc | by left].
    + split; [discriminate|]. intros (c' & rest & [= <- <-] & Hc' & _).
      apply Hc in Hc'. congruence.
  - destruct (has_type named (TUnion [TString; Element]) c) eqn:Hcv; cbn [andb].
    + destruct (has_type named QuillOptionsStatic o) eqn:Ho; cbn [orb].
      * split; [|reflexivity]. intros _. exists c, [o]. split; [reflexivity|].
        split; [by apply Hc|]. right. exists o. auto.
      * destruct o; cbn [is_undefined];
          try (split; [discriminate|];
               intros (c' & rest & [= <- <-] & _ & [[=]|(o' & [= <-] & [[=]|Ho'])]);
               congruence).
        split; [|reflexivity]. intros _. exists c, [VUndefined].
        split; [reflexivity|]. split; [by apply Hc|]. right. eauto.
    + split; [discriminate|]. intros (c' & rest & [= <- <-] & Hc' & _).
      apply Hc in Hc'. congruence.
  - split; [discriminate|].
    intros (c' & rest' & [= <- <-] & _ & [[=]|(o' & [=] & _)]).
Qed.

(** X6 at [new Quill("#editor", {})]. *)
Lemma constructor_requires_container_witness :
  call (fun _ _ => false) (static_side (members_of Quill)) "new"
    [VStr "#editor"; VObj []] = Some Quill.
Proof.
  apply (proj1 (constructor_requires_container (fun _ _ => false)
                  [VStr "#editor"; VObj []])).
  exists (VStr "#editor"), [VObj []]. split; [reflexivity|].
  split; [left; eauto|]. right. exists (VObj []). split; [reflexivity|].
  right. reflexivity.
Defined.

(** X7: the clipboard's [convert] may be called with no argument. With a
    content object it type-checks exactly when the object is empty or
    carries [html] or [text], and the [html] and the [text] that it
    carries are strings (or [undefined]); a formats object may follow. It
    then yields a [Delta]. *)
Theorem convert_takes_optional_strings :
  ∀ named,
    call named (members_of ClipboardStatic) "convert" [] = Some Delta
    ∧ (∀ fs,
         call named (members_of ClipboardStatic) "convert" [VObj fs]
         = if field_fits named "html" TString fs && field_fits named "text" TString fs
              && empty_or_carries ["html"; "text"] fs
           then Some Delta else None)
    ∧ (∀ fs formats,
         field_fits named "html" TString fs = true →
         field_fits named "text" TString fs = true →
         empty_or_carries ["html"; "text"] fs = true →
         call named (members_of ClipboardStatic) "convert" [VObj fs; VObj formats]
         = Some Delta).
Proof.
  intros named. split; [reflexivity|].
  assert (Hcontent : ∀ fs,
            has_type named (TObject [prop_opt "html" TString; prop_opt "text" TString])
              (VObj fs)
            = field_fits named "html" TString fs && field_fits named "text" TString fs
              && empty_or_carries ["html"; "text"] fs).
  { intros fs. cbn [prop_opt has_type forallb member_ok].
    rewrite common_property_weak by reflexivity. unfold field_fits.
    cbn [members_of property_names omap list_omap].
    destruct (get "html" fs), (get "text" fs); cbn [andb];
      rewrite ?andb_true_r; reflexivity. }
  split.
  - intros fs. unfold call.
    change (overloads "convert" (members_of ClipboardStatic))
      with [([arg_opt "content" (TObject [prop_opt "html" TString; prop_opt "text" TString]);
              arg_opt "formats" StringMap], Delta)].
    cbn [resolve accepts]. unfold arg_ok, arg_opt.
    cbn [ptype poptional is_undefined andb orb].
    rewrite Hcontent, orb_false_r, andb_true_r. reflexivity.
  - intros fs formats Hhtml Htext Hcommon. unfold call.
    change (overloads "convert" (members_of ClipboardStatic))
      with [([arg_opt "content" (TObject [prop_opt "html" TString; prop_opt "text" TString]);
              arg_opt "formats" StringMap], Delta)].
    cbn [resolve accepts]. unfold arg_ok, arg_opt.
    cbn [ptype poptional is_undefined andb orb].
    rewrite Hcontent, Hhtml, Htext, Hcommon, StringMap_object. reflexivity.
Qed.

(** X7 at [convert({ html: "<b>a</b>" }, { bold: true })]. *)
Lemma convert_takes_optional_strings_witness :
  call (fun _ _ => false) (members_of ClipboardStatic) "convert"
    [VObj [("html", VStr "<b>a</b>")]; VObj [("bold", VBool true)]] = Some Delta.
Proof.
  destruct (convert_takes_optional_strings (fun _ _ => false)) as (_ & _ & H).
  apply H; reflexivity.
Defined.

(** X8: the editor class declares every member of [EventEmitter], with
    the same signature, so every instance of the class is an event
    emitter, as the class says it implements. *)
Theorem Quill_implements_EventEmitter :
  members_of EventEmitter ⊆ members_of Quill
  ∧ (∀ named v, has_type named Quill v = true → has_type named EventEmitter v = true).
Proof.
  assert (Hsub : members_of EventEmitter ⊆ members_of Quill).
  { intros x Hx. cbn [members_of EventEmitter] in Hx.
    rewrite !elem_of_cons, elem_of_nil in Hx.
    cbn [members_of Quill].
    repeat (destruct Hx as [->|Hx];
            [repeat first [apply list_elem_of_here | apply list_elem_of_further]|]).
    destruct Hx. }
  split; [exact Hsub|].
  intros named v. apply (members_subsumed named _ _ v Hsub). reflexivity.
Qed.

(** X8 at a stand-in instance of the class. *)
Lemma Quill_implements_EventEmitter_witness :
  has_type (fun _ _ => true) EventEmitter
    (stub (stub (VArr []) (members_of ClipboardStatic ++ members_of KeyboardStatic))
          (members_of Quill)) = true.
Proof.
  apply (proj2 Quill_implements_EventEmitter). vm_compute. reflexivity.
Defined.

